(** * Session and OAuth-state lifecycle of dotfiles-web

    A shallow embedding of

    - [internal/auth/oauth.go]: the registry of single-use, time-limited
      OAuth state tokens ([OAuthService]);
    - the [auth] session manager ([SessionManager]): creation, sliding
      expiry, deletion, data merge and the periodic reaper;
    - the legacy [middleware] helper [getSession] and [RequireAuth].

    Go maps are [gmap]s keyed by [string].  A [time.Time] is an instant on
    the integer line counted in nanoseconds and a [time.Duration] is a
    number of nanoseconds, so [t.Add(d)] is [t + d] and [t.After(u)] is
    [u < t].  Every call of [time.Now()] in the source is an explicit
    argument of the embedded function, in the order the source makes the
    calls; the mutex only serialises the operations and is not modelled. *)

From Stdlib Require Import ZArith Lia.
From Stdlib.Strings Require Import Ascii String Byte.
From stdpp Require Import gmap strings list fin_maps.

Local Open Scope Z_scope.

(** * Part I: the program *)

(** ** Go's [time] package, as far as the code uses it *)

Module time.

Definition Nanosecond : Z := 1.
Definition Second : Z := 1000000000 * Nanosecond.
Definition Minute : Z := 60 * Second.
Definition Hour : Z := 60 * Minute.

(** [t.Add(d)] *)
Definition Add (t d : Z) : Z := t + d.

(** [t.After(u)]: [t] is strictly later than [u]. *)
Definition After (t u : Z) : bool := Z.ltb u t.

End time.

(** ** Results of fallible calls: a value or a Go [error] *)

Inductive result (A : Type) : Type :=
| Ok (a : A)
| Err (msg : string).
Arguments Ok {A} a.
Arguments Err {A} msg.

(** ** [encoding/hex] and [encoding/base64], as far as the code uses them *)

Module hex.

Definition hextable : string := "0123456789abcdef".

Definition digit (n : N) : ascii :=
  default "0"%char (String.get (N.to_nat n) hextable).

(** [hex.EncodeToString]: two lower-case digits per byte. *)
Fixpoint EncodeToString (src : list Byte.byte) : string :=
  match src with
  | [] => ""
  | v :: src =>
      let n := Byte.to_N v in
      String (digit (N.shiftr n 4))
        (String (digit (N.land n 15)) (EncodeToString src))
  end.

End hex.

Module base64.

Definition encodeURL : string :=
  "ABCDEFGHIJKLMNOPQRSTUVWXYZabcdefghijklmnopqrstuvwxyz0123456789-_".

Definition StdPadding : ascii := "="%char.

Definition sextet (n : N) : ascii :=
  default "A"%char (String.get (N.to_nat (N.land n 63)) encodeURL).

(** [base64.URLEncoding.EncodeToString]: three bytes give four characters
    of the URL alphabet, and a last group of one or two bytes is padded. *)
Fixpoint EncodeToString (src : list Byte.byte) : string :=
  match src with
  | [] => ""
  | [a] =>
      let val := N.shiftl (Byte.to_N a) 16 in
      String (sextet (N.shiftr val 18))
        (String (sextet (N.shiftr val 12))
           (String StdPadding (String StdPadding "")))
  | [a; b] =>
      let val := N.lor (N.shiftl (Byte.to_N a) 16) (N.shiftl (Byte.to_N b) 8) in
      String (sextet (N.shiftr val 18))
        (String (sextet (N.shiftr val 12))
           (String (sextet (N.shiftr val 6)) (String StdPadding "")))
  | a :: b :: c :: src =>
      let val := N.lor (N.lor (N.shiftl (Byte.to_N a) 16)
                              (N.shiftl (Byte.to_N b) 8)) (Byte.to_N c) in
      String (sextet (N.shiftr val 18))
        (String (sextet (N.shiftr val 12))
           (String (sextet (N.shiftr val 6))
              (String (sextet val) (EncodeToString src))))
  end.

End base64.

(** ** [for k, v := range m] loops over a Go map

    Go visits the entries of a map in an unspecified order, each entry that
    is still present once.  The loops below take the visiting order as a
    list; what they compute is the same for every order that is a
    permutation of the entries of the map being ranged over. *)

(** [for k, v := range m { if cond(v) { delete(m, k) } }] *)
Definition range_delete {V : Type} (cond : V → bool)
    (order : list (string * V)) (m : gmap string V) : gmap string V :=
  foldl (λ acc kv, if cond kv.2 then delete kv.1 acc else acc) m order.

(** [for k, v := range d { m[k] = v }] *)
Definition range_assign {V : Type}
    (order : list (string * V)) (m : gmap string V) : gmap string V :=
  foldl (λ acc kv, <[kv.1 := kv.2]> acc) m order.

(** ** [internal/auth/oauth.go]: the OAuth state registry *)

Module oauth.

(** [oauth2.Config], the fields the constructor fills in. *)
Record Config := {
  ClientID : string;
  ClientSecret : string;
  RedirectURL : string;
  Scopes : list string
}.

(** [OAuthState]: a time-limited OAuth state token. *)
Record OAuthState := {
  Token : string;
  ExpiresAt : Z
}.

(** [OAuthService]; the [mutex] field is not modelled. *)
Record OAuthService := {
  config : Config;
  states : gmap string OAuthState
}.

(** A call on the service, for runs of several calls.  [rnd] is what
    [rand.Read] delivers and [now] what [time.Now()] returns. *)
Inductive call :=
| CallGetAuthURL (rnd : result (list Byte.byte)) (now : Z)
| CallValidateState (state : string) (now : Z)
| CallCleanupTick (now : Z).

(** [generateState]: [rnd] is the outcome of [rand.Read] on the 32-byte
    buffer, the filled buffer or the error. *)
Definition generateState (rnd : result (list Byte.byte)) : result string :=
  match rnd with
  | Err err => Err ("failed to generate state: " +:+ err)
  | Ok b => Ok (base64.EncodeToString b)
  end.

Section service.
(** [oauth2.Config.AuthCodeURL] with [oauth2.AccessTypeOffline], a library
    function from outside the repository. *)
Variable AuthCodeURL : Config → string → string.

(** [GetAuthURL]: stores a fresh state token for 10 minutes and returns
    the authorization URL that carries it. *)
Definition GetAuthURL (rnd : result (list Byte.byte)) (now : Z)
    (s : OAuthService) : result string * OAuthService :=
  match generateState rnd with
  | Err err => (Err err, s)
  | Ok stateToken =>
      let st := {| Token := stateToken;
                   ExpiresAt := time.Add now (10 * time.Minute) |} in
      (Ok (AuthCodeURL (config s) stateToken),
       {| config := config s;
          states := <[stateToken := st]> (states s) |})
  end.

(** [ValidateState]: validates the state parameter and removes it. *)
Definition ValidateState (state : string) (now : Z) (s : OAuthService)
    : bool * OAuthService :=
  match states s !! state with
  | None => (false, s)
  | Some oauthState =>
      if time.After now (ExpiresAt oauthState)
      then (false, {| config := config s;
                      states := delete state (states s) |})
      else (true, {| config := config s;
                     states := delete state (states s) |})
  end.

(** One iteration of the loop of [cleanupExpiredStates], visiting the
    entries in the given order. *)
Definition cleanupExpiredStates_tick_in (order : list (string * OAuthState))
    (now : Z) (s : OAuthService) : OAuthService :=
  {| config := config s;
     states := range_delete (λ state, time.After now (ExpiresAt state))
                            order (states s) |}.

Definition cleanupExpiredStates_tick (now : Z) (s : OAuthService)
    : OAuthService :=
  cleanupExpiredStates_tick_in (map_to_list (states s)) now s.

(** [cleanupExpiredStates] over the ticks the ticker has delivered so
    far; each tick comes with the time read on it. *)
Definition cleanupExpiredStates (ticks : list Z) (s : OAuthService)
    : OAuthService :=
  foldl (λ s now, cleanupExpiredStates_tick now s) s ticks.

Definition step (c : call) (s : OAuthService) : OAuthService :=
  match c with
  | CallGetAuthURL rnd now => (GetAuthURL rnd now s).2
  | CallValidateState state now => (ValidateState state now s).2
  | CallCleanupTick now => cleanupExpiredStates_tick now s
  end.

Definition run (cs : list call) (s : OAuthService) : OAuthService :=
  foldl (λ s c, step c s) s cs.

End service.

(** The call stores the token [t] in the registry. *)
Definition issues (t : string) (c : call) : Prop :=
  match c with
  | CallGetAuthURL (Ok b) _ => base64.EncodeToString b = t
  | _ => False
  end.

(** [NewOAuthService], without the reaper it starts and without the
    endpoint; [Getenv] is [os.Getenv]. *)
Definition NewOAuthService (Getenv : string → string) : OAuthService :=
  {| config := {| ClientID := Getenv "GITHUB_CLIENT_ID";
                  ClientSecret := Getenv "GITHUB_CLIENT_SECRET";
                  RedirectURL := Getenv "OAUTH_REDIRECT_URL";
                  Scopes := ["user:email"] |};
     states := ∅ |}.

(** [IsConfigured] *)
Definition IsConfigured (s : OAuthService) : bool :=
  bool_decide (ClientID (config s) ≠ "").

(** The call leaves the token [t] alone up to time [now]: it does not
    validate [t], it does not issue [t], and if it is a sweep it runs no
    later than [now]. *)
Definition quiet (t : string) (now : Z) (c : call) : Prop :=
  match c with
  | CallGetAuthURL (Ok b) _ => base64.EncodeToString b ≠ t
  | CallGetAuthURL (Err _) _ => True
  | CallValidateState state _ => state ≠ t
  | CallCleanupTick n => n ≤ now
  end.

End oauth.

(** ** The [auth] session manager *)

Module auth.

Section manager.
(** The values a session's [Data] holds ([interface{}] in the source). *)
Variable Value : Type.

(** [Session]: a user session. *)
Record Session := {
  ID : string;
  UserID : string;
  Username : string;
  Email : string;
  CreatedAt : Z;
  ExpiresAt : Z;
  Data : gmap string Value
}.

(** [SessionManager]; the [mutex] field is not modelled.  Every entry of
    [sessions] points to a record of its own, made by [CreateSession], so
    the table holds the records themselves. *)
Record SessionManager := {
  sessions : gmap string Session;
  timeout : Z
}.

(** [session.ExpiresAt = e] *)
Definition set_ExpiresAt (e : Z) (session : Session) : Session :=
  {| ID := ID session; UserID := UserID session;
     Username := Username session; Email := Email session;
     CreatedAt := CreatedAt session; ExpiresAt := e;
     Data := Data session |}.

(** The record once the map behind [session.Data] holds [d]. *)
Definition set_Data (d : gmap string Value) (session : Session) : Session :=
  {| ID := ID session; UserID := UserID session;
     Username := Username session; Email := Email session;
     CreatedAt := CreatedAt session; ExpiresAt := ExpiresAt session;
     Data := d |}.

(** The manager once the map behind [sm.sessions] holds [m]. *)
Definition set_sessions (m : gmap string Session) (sm : SessionManager)
    : SessionManager :=
  {| sessions := m; timeout := timeout sm |}.

(** [NewSessionManager], without the reaper it starts. *)
Definition NewSessionManager (timeout : Z) : SessionManager :=
  {| sessions := ∅; timeout := timeout |}.

(** [generateSessionID]: [rnd] is the outcome of [rand.Read] on the
    32-byte buffer. *)
Definition generateSessionID (rnd : result (list Byte.byte)) : result string :=
  match rnd with
  | Err err => Err err
  | Ok bytes => Ok (hex.EncodeToString bytes)
  end.

(** [CreateSession]: [now1] is the clock read for [CreatedAt], [now2] the
    one read for [ExpiresAt]. *)
Definition CreateSession (rnd : result (list Byte.byte)) (now1 now2 : Z)
    (userID username email : string) (sm : SessionManager)
    : result Session * SessionManager :=
  match generateSessionID rnd with
  | Err err => (Err err, sm)
  | Ok sessionID =>
      let session :=
        {| ID := sessionID; UserID := userID; Username := username;
           Email := email; CreatedAt := now1;
           ExpiresAt := time.Add now2 (timeout sm); Data := ∅ |} in
      (Ok session, set_sessions (<[sessionID := session]> (sessions sm)) sm)
  end.

(** [GetSession]: [now1] is the clock read for the expiry test, [now2] the
    one read for the new [ExpiresAt].  The result is the pair the source
    returns, [None] for the [nil] pointer, and the manager after the
    call. *)
Definition GetSession (sessionID : string) (now1 now2 : Z)
    (sm : SessionManager) : option Session * bool * SessionManager :=
  match sessions sm !! sessionID with
  | None => (None, false, sm)
  | Some session =>
      if time.After now1 (ExpiresAt session)
      then (None, false, set_sessions (delete sessionID (sessions sm)) sm)
      else
        let session' := set_ExpiresAt (time.Add now2 (timeout sm)) session in
        (Some session', true,
         set_sessions (<[sessionID := session']> (sessions sm)) sm)
  end.

(** [DeleteSession] *)
Definition DeleteSession (sessionID : string) (sm : SessionManager)
    : SessionManager :=
  set_sessions (delete sessionID (sessions sm)) sm.

(** [UpdateSession], ranging over [data] in the given order. *)
Definition UpdateSession_in (order : list (string * Value))
    (sessionID : string) (sm : SessionManager) : SessionManager :=
  match sessions sm !! sessionID with
  | Some session =>
      let session' := set_Data (range_assign order (Data session)) session in
      set_sessions (<[sessionID := session']> (sessions sm)) sm
  | None => sm
  end.

Definition UpdateSession (sessionID : string) (data : gmap string Value)
    (sm : SessionManager) : SessionManager :=
  UpdateSession_in (map_to_list data) sessionID sm.

(** One iteration of the loop of [cleanupExpiredSessions], visiting the
    entries in the given order. *)
Definition cleanupExpiredSessions_tick_in (order : list (string * Session))
    (now : Z) (sm : SessionManager) : SessionManager :=
  set_sessions
    (range_delete (λ session, time.After now (ExpiresAt session))
                  order (sessions sm)) sm.

Definition cleanupExpiredSessions_tick (now : Z) (sm : SessionManager)
    : SessionManager :=
  cleanupExpiredSessions_tick_in (map_to_list (sessions sm)) now sm.

(** [cleanupExpiredSessions] over the ticks the ticker has delivered so
    far; each tick comes with the time read on it. *)
Definition cleanupExpiredSessions (ticks : list Z) (sm : SessionManager)
    : SessionManager :=
  foldl (λ sm now, cleanupExpiredSessions_tick now sm) sm ticks.

(** A call on the manager, for runs of several calls. *)
Inductive call :=
| CallCreateSession (rnd : result (list Byte.byte)) (now1 now2 : Z)
    (userID username email : string)
| CallGetSession (sessionID : string) (now1 now2 : Z)
| CallDeleteSession (sessionID : string)
| CallUpdateSession (sessionID : string) (data : gmap string Value)
| CallCleanupTick (now : Z).

Definition step (c : call) (sm : SessionManager) : SessionManager :=
  match c with
  | CallCreateSession rnd now1 now2 userID username email =>
      (CreateSession rnd now1 now2 userID username email sm).2
  | CallGetSession sessionID now1 now2 => (GetSession sessionID now1 now2 sm).2
  | CallDeleteSession sessionID => DeleteSession sessionID sm
  | CallUpdateSession sessionID data => UpdateSession sessionID data sm
  | CallCleanupTick now => cleanupExpiredSessions_tick now sm
  end.

Definition run (cs : list call) (sm : SessionManager) : SessionManager :=
  foldl (λ sm c, step c sm) sm cs.

(** The call reads the session [id] or creates a session under [id]. *)
Definition accesses (id : string) (c : call) : Prop :=
  match c with
  | CallGetSession sessionID _ _ => sessionID = id
  | CallCreateSession (Ok bytes) _ _ _ _ _ => hex.EncodeToString bytes = id
  | _ => False
  end.

(** [GetSession id] called once per pair of clock readings: the [found]
    results in order, and the manager at the end. *)
Fixpoint GetSession_each (id : string) (reads : list (Z * Z))
    (sm : SessionManager) : list bool * SessionManager :=
  match reads with
  | [] => ([], sm)
  | (now1, now2) :: reads =>
      let '(_, found, sm1) := GetSession id now1 now2 sm in
      let '(founds, sm2) := GetSession_each id reads sm1 in
      (found :: founds, sm2)
  end.

(** Each call starts at most [d] after the previous access, made at
    [last]. *)
Fixpoint gaps_within (d last : Z) (reads : list (Z * Z)) : Prop :=
  match reads with
  | [] => True
  | (now1, now2) :: reads => now1 - last ≤ d ∧ gaps_within d now2 reads
  end.

End manager.

Arguments ID {Value} _.
Arguments UserID {Value} _.
Arguments Username {Value} _.
Arguments Email {Value} _.
Arguments CreatedAt {Value} _.
Arguments ExpiresAt {Value} _.
Arguments Data {Value} _.
Arguments sessions {Value} _.
Arguments timeout {Value} _.
Arguments set_ExpiresAt {Value} e session.
Arguments set_Data {Value} d session.
Arguments set_sessions {Value} m sm.
Arguments CreateSession {Value} rnd now1 now2 userID username email sm.
Arguments GetSession {Value} sessionID now1 now2 sm.
Arguments DeleteSession {Value} sessionID sm.
Arguments UpdateSession_in {Value} order sessionID sm.
Arguments UpdateSession {Value} sessionID data sm.
Arguments cleanupExpiredSessions_tick_in {Value} order now sm.
Arguments cleanupExpiredSessions_tick {Value} now sm.
Arguments cleanupExpiredSessions {Value} ticks sm.
Arguments CallCreateSession {Value} rnd now1 now2 userID username email.
Arguments CallGetSession {Value} sessionID now1 now2.
Arguments CallDeleteSession {Value} sessionID.
Arguments CallUpdateSession {Value} sessionID data.
Arguments CallCleanupTick {Value} now.
Arguments step {Value} c sm.
Arguments run {Value} cs sm.
Arguments accesses {Value} id c.
Arguments GetSession_each {Value} id reads sm.

(** The call creates a session under [id]. *)
Definition creates {Value : Type} (id : string) (c : call Value) : Prop :=
  match c with
  | CallCreateSession (Ok bytes) _ _ _ _ _ => hex.EncodeToString bytes = id
  | _ => False
  end.

(** The call is a [CreateSession] whose id generation succeeds. *)
Definition is_creation {Value : Type} (c : call Value) : bool :=
  match c with
  | CallCreateSession (Ok _) _ _ _ _ _ => true
  | _ => false
  end.

End auth.

(** ** The legacy [middleware] package *)

Module middleware.

(** [http.Cookie], the fields the code reads. *)
Record Cookie := {
  Name : string;
  Value : string
}.

(** [http.Request]: the cookies its [Cookie] headers carry, in order. *)
Record Request := {
  Cookies : list Cookie
}.

Definition ErrNoCookie : string := "http: named cookie not present".

(** [r.Cookie(name)]: the first cookie of that name, or [ErrNoCookie]. *)
Definition Request_Cookie (name : string) (r : Request) : result Cookie :=
  if decide (name = "") then Err ErrNoCookie
  else match filter (λ c, Name c = name) (Cookies r) with
       | c :: _ => Ok c
       | [] => Err ErrNoCookie
       end.

Definition StatusUnauthorized : Z := 401.

Section handlers.
(** Go's [interface{}]: the values of session maps, context keys and
    response bodies. *)
Variable any : Type.
(** [errors.NewUnauthorizedError] of [pkg/errors], which is not part of the
    sources at hand. *)
Variable NewUnauthorizedError : string → any.

(** [gin.Context], as far as the handlers use it: the request, the keys
    set with [c.Set], the responses written with [c.JSON], and whether
    [c.Abort] was called. *)
Record Context := {
  Request_ : Request;
  Keys : gmap string any;
  Written : list (Z * gmap string any);
  Aborted : bool
}.

(** [c.JSON(code, obj)] *)
Definition JSON (code : Z) (obj : gmap string any) (c : Context) : Context :=
  {| Request_ := Request_ c; Keys := Keys c;
     Written := Written c ++ [(code, obj)]; Aborted := Aborted c |}.

(** [c.Abort()] *)
Definition Abort (c : Context) : Context :=
  {| Request_ := Request_ c; Keys := Keys c;
     Written := Written c; Aborted := true |}.

(** [c.Set(key, value)] *)
Definition Set_ (key : string) (value : any) (c : Context) : Context :=
  {| Request_ := Request_ c; Keys := <[key := value]> (Keys c);
     Written := Written c; Aborted := Aborted c |}.

(** [getSession]: [None] is the [nil] map. *)
Definition getSession (c : Context) : option (gmap string any) :=
  match Request_Cookie "session" (Request_ c) with
  | Err _ => None
  | Ok sessionCookie =>
      if decide (Value sessionCookie = "") then None
      else None
  end.

(** The handler [RequireAuth] returns; [Next] is what [c.Next()] runs, the
    rest of the handler chain. *)
Definition RequireAuth (Next : Context → Context) (c : Context) : Context :=
  match getSession c with
  | None =>
      Abort (JSON StatusUnauthorized
               {[ "error" := NewUnauthorizedError "authentication required" ]} c)
  | Some session =>
      match session !! "user_id" with
      | None =>
          Abort (JSON StatusUnauthorized
                   {[ "error" := NewUnauthorizedError "invalid session" ]} c)
      | Some userID => Next (Set_ "user_id" userID c)
      end
  end.

(** The handler [OptionalAuth] returns. *)
Definition OptionalAuth (Next : Context → Context) (c : Context) : Context :=
  match getSession c with
  | Some session =>
      match session !! "user_id" with
      | Some userID => Next (Set_ "user_id" userID c)
      | None => Next c
      end
  | None => Next c
  end.

End handlers.

Arguments Request_ {any} _.
Arguments Keys {any} _.
Arguments Written {any} _.
Arguments Aborted {any} _.
Arguments JSON {any} code obj c.
Arguments Abort {any} c.
Arguments Set_ {any} key value c.
Arguments getSession {any} c.
Arguments RequireAuth {any} NewUnauthorizedError Next c.
Arguments OptionalAuth {any} Next c.

End middleware.

(** ** The [errors] package *)

Module errors.

Definition ErrCodeNotFound : string := "NOT_FOUND".
Definition ErrCodeUnauthorized : string := "UNAUTHORIZED".
Definition ErrCodeForbidden : string := "FORBIDDEN".
Definition ErrCodeConflict : string := "CONFLICT".

Definition StatusUnauthorized : Z := 401.
Definition StatusForbidden : Z := 403.
Definition StatusNotFound : Z := 404.
Definition StatusConflict : Z := 409.

(** [AppError]; [Internal] is the wrapped error, by its text. *)
Record AppError := {
  Code : string;
  Message : string;
  Details : string;
  StatusCode : Z;
  Internal : option string
}.

Definition NewNotFoundError (resource : string) : AppError :=
  {| Code := ErrCodeNotFound; Message := resource +:+ " not found";
     Details := ""; StatusCode := StatusNotFound; Internal := None |}.

Definition NewUnauthorizedError (message : string) : AppError :=
  {| Code := ErrCodeUnauthorized; Message := message;
     Details := ""; StatusCode := StatusUnauthorized; Internal := None |}.

Definition NewForbiddenError (message : string) : AppError :=
  {| Code := ErrCodeForbidden; Message := message;
     Details := ""; StatusCode := StatusForbidden; Internal := None |}.

Definition NewConflictError (message : string) : AppError :=
  {| Code := ErrCodeConflict; Message := message;
     Details := ""; StatusCode := StatusConflict; Internal := None |}.

(** What a function with a [(T, error)] result returns: the value, or the
    [*AppError]. *)
Inductive fallible (A : Type) : Type :=
| Success (a : A)
| Failure (e : AppError).
Arguments Success {A} a.
Arguments Failure {A} e.

End errors.

(** ** The in-memory user repository ([internal/repository/memory/user.go])

    The repository stores the pointers it is given and hands them out
    again.  The records are modelled as values: what is stated below is
    about the repository's own calls, which never write to a user record,
    and not about callers that write through a pointer they got from it. *)

Module memory.
Import errors.

(** [models.User] *)
Record User := {
  ID : string;
  Username : string;
  Name : string;
  Email : string;
  AvatarURL : string;
  Bio : string;
  Location : string;
  Website : string;
  Company : string;
  CreatedAt : Z;
  UpdatedAt : Z;
  Favorites : list string
}.

(** [UserRepository]; the [mutex] field is not modelled.  An id without an
    entry in [favorites] has the [nil] slice. *)
Record UserRepository := {
  users : gmap string User;
  favorites : gmap string (list string)
}.

Definition NewUserRepository : UserRepository :=
  {| users := ∅; favorites := ∅ |}.

(** The loop of [Create] over the existing users, in the given order: the
    error of its first [return], if it returns. *)
Fixpoint Create_scan (user : User) (order : list (string * User))
    : option AppError :=
  match order with
  | [] => None
  | (_, existingUser) :: order =>
      if decide (Username existingUser = Username user)
      then Some (NewConflictError "username already taken")
      else if decide (Email existingUser = Email user)
      then Some (NewConflictError "email already taken")
      else Create_scan user order
  end.

(** [Create], visiting the users in the given order; [None] is the [nil]
    error. *)
Definition Create_in (order : list (string * User)) (user : User)
    (r : UserRepository) : option AppError * UserRepository :=
  match users r !! ID user with
  | Some _ => (Some (NewConflictError "user already exists"), r)
  | None =>
      match Create_scan user order with
      | Some err => (Some err, r)
      | None =>
          (None, {| users := <[ID user := user]> (users r);
                    favorites := favorites r |})
      end
  end.

Definition Create (user : User) (r : UserRepository)
    : option AppError * UserRepository :=
  Create_in (map_to_list (users r)) user r.

(** [GetByID] *)
Definition GetByID (id : string) (r : UserRepository) : fallible User :=
  match users r !! id with
  | None => Failure (NewNotFoundError "user")
  | Some user => Success user
  end.

(** The loop of [GetByUsername], in the given order. *)
Fixpoint GetByUsername_in (order : list (string * User)) (username : string)
    : fallible User :=
  match order with
  | [] => Failure (NewNotFoundError "user")
  | (_, user) :: order =>
      if decide (Username user = username) then Success user
      else GetByUsername_in order username
  end.

Definition GetByUsername (username : string) (r : UserRepository)
    : fallible User :=
  GetByUsername_in (map_to_list (users r)) username.

(** The loop of [GetByEmail], in the given order. *)
Fixpoint GetByEmail_in (order : list (string * User)) (email : string)
    : fallible User :=
  match order with
  | [] => Failure (NewNotFoundError "user")
  | (_, user) :: order =>
      if decide (Email user = email) then Success user
      else GetByEmail_in order email
  end.

Definition GetByEmail (email : string) (r : UserRepository)
    : fallible User :=
  GetByEmail_in (map_to_list (users r)) email.

(** The loop of [Update] over the existing users, in the given order. *)
Fixpoint Update_scan (user : User) (order : list (string * User))
    : option AppError :=
  match order with
  | [] => None
  | (id, existingUser) :: order =>
      if decide (id ≠ ID user)
      then
        if decide (Username existingUser = Username user)
        then Some (NewConflictError "username already taken")
        else if decide (Email existingUser = Email user)
        then Some (NewConflictError "email already taken")
        else Update_scan user order
      else Update_scan user order
  end.

(** [Update], visiting the users in the given order. *)
Definition Update_in (order : list (string * User)) (user : User)
    (r : UserRepository) : option AppError * UserRepository :=
  match users r !! ID user with
  | None => (Some (NewNotFoundError "user"), r)
  | Some _ =>
      match Update_scan user order with
      | Some err => (Some err, r)
      | None =>
          (None, {| users := <[ID user := user]> (users r);
                    favorites := favorites r |})
      end
  end.

Definition Update (user : User) (r : UserRepository)
    : option AppError * UserRepository :=
  Update_in (map_to_list (users r)) user r.

(** [Delete] *)
Definition Delete (id : string) (r : UserRepository)
    : option AppError * UserRepository :=
  match users r !! id with
  | None => (Some (NewNotFoundError "user"), r)
  | Some _ =>
      (None, {| users := delete id (users r);
                favorites := delete id (favorites r) |})
  end.

(** [r.favorites[userID]]: the [nil] slice when there is no entry. *)
Definition favorites_of (userID : string) (r : UserRepository) : list string :=
  default [] (favorites r !! userID).

(** The loop of [AddFavorite]: whether it reaches its [return]. *)
Fixpoint has_favorite (templateID : string) (favs : list string) : bool :=
  match favs with
  | [] => false
  | fav :: favs =>
      if decide (fav = templateID) then true
      else has_favorite templateID favs
  end.

(** [AddFavorite] *)
Definition AddFavorite (userID templateID : string) (r : UserRepository)
    : option AppError * UserRepository :=
  match users r !! userID with
  | None => (Some (NewNotFoundError "user"), r)
  | Some _ =>
      let favs := favorites_of userID r in
      if has_favorite templateID favs
      then (Some (NewConflictError "template already in favorites"), r)
      else (None, {| users := users r;
                     favorites :=
                       <[userID := favs ++ [templateID]]> (favorites r) |})
  end.

(** The loop of [RemoveFavorite]: the index [i] at which it finds the
    template, counted from [i]. *)
Fixpoint favorite_index (templateID : string) (favs : list string) (i : nat)
    : option nat :=
  match favs with
  | [] => None
  | fav :: favs =>
      if decide (fav = templateID) then Some i
      else favorite_index templateID favs (S i)
  end.

(** [RemoveFavorite]; [take i favs ++ drop (S i) favs] is
    [append(favorites[:i], favorites[i+1:]...)]. *)
Definition RemoveFavorite (userID templateID : string) (r : UserRepository)
    : option AppError * UserRepository :=
  match users r !! userID with
  | None => (Some (NewNotFoundError "user"), r)
  | Some _ =>
      let favs := favorites_of userID r in
      match favorite_index templateID favs 0 with
      | Some i =>
          (None, {| users := users r;
                    favorites :=
                      <[userID := take i favs ++ drop (S i) favs]>
                        (favorites r) |})
      | None => (Some (NewNotFoundError "favorite"), r)
      end
  end.

(** [GetFavorites]: a copy of the user's favorites. *)
Definition GetFavorites (userID : string) (r : UserRepository)
    : fallible (list string) :=
  match users r !! userID with
  | None => Failure (NewNotFoundError "user")
  | Some _ => Success (favorites_of userID r)
  end.

(** A call that writes to the repository, for runs of several calls. *)
Inductive call :=
| CallCreate (user : User)
| CallUpdate (user : User)
| CallDelete (id : string)
| CallAddFavorite (userID templateID : string)
| CallRemoveFavorite (userID templateID : string).

Definition step (c : call) (r : UserRepository) : UserRepository :=
  match c with
  | CallCreate user => (Create user r).2
  | CallUpdate user => (Update user r).2
  | CallDelete id => (Delete id r).2
  | CallAddFavorite userID templateID => (AddFavorite userID templateID r).2
  | CallRemoveFavorite userID templateID =>
      (RemoveFavorite userID templateID r).2
  end.

Definition run (cs : list call) (r : UserRepository) : UserRepository :=
  foldl (λ r c, step c r) r cs.

(** No two users under different ids share a user name or an email, and
    every user is stored under its own id. *)
Definition unique (r : UserRepository) : Prop :=
  (∀ id u, users r !! id = Some u → ID u = id) ∧
  (∀ id1 id2 u1 u2,
     users r !! id1 = Some u1 → users r !! id2 = Some u2 → id1 ≠ id2 →
     Username u1 ≠ Username u2 ∧ Email u1 ≠ Email u2).

(** Only existing users have favorites, and no favorites slice holds a
    template twice. *)
Definition tidy (r : UserRepository) : Prop :=
  ∀ id favs, favorites r !! id = Some favs →
             is_Some (users r !! id) ∧ NoDup favs.

End memory.

(** ** [strings.Split], for a one-byte separator *)

Module strings.

(** [strings.Split(s, sep)]: the pieces of [s] between the separators; a
    string without separator is its own single piece. *)
Fixpoint Split (s : string) (sep : ascii) : list string :=
  match s with
  | EmptyString => [""]
  | String c s =>
      if decide (c = sep) then "" :: Split s sep
      else match Split s sep with
           | piece :: pieces => String c piece :: pieces
           | [] => [String c ""]
           end
  end.

(** Whether the byte occurs in the string. *)
Fixpoint ContainsByte (s : string) (c : ascii) : bool :=
  match s with
  | EmptyString => false
  | String c' s => if decide (c' = c) then true else ContainsByte s c
  end.

End strings.

(** ** [extractBearerToken] of the legacy middleware *)

Module bearer.

Section bearer.
(** [strings.ToLower], a library function from outside the repository. *)
Variable ToLower : string → string.

Definition extractBearerToken (authHeader : string) : string :=
  if decide (authHeader = "") then ""
  else
    let parts := strings.Split authHeader " "%char in
    if bool_decide (length parts ≠ 2%nat)
       || bool_decide (ToLower (nth 0 parts "") ≠ "bearer")
    then ""
    else nth 1 parts "".

End bearer.

End bearer.

(** ** [net/http] and [gin.Context], as far as the session handlers use
    them *)

Module http.

Record Cookie := {
  Name : string;
  Value : string
}.

(** [http.Request]: the cookies of its [Cookie] headers in order, whether
    [TLS] is set, and the header values under their canonical keys. *)
Record Request := {
  Cookies : list Cookie;
  TLS : bool;
  Header : gmap string (list string)
}.

Definition ErrNoCookie : string := "http: named cookie not present".

(** [r.Cookie(name)] *)
Definition Request_Cookie (name : string) (r : Request) : result Cookie :=
  if decide (name = "") then Err ErrNoCookie
  else match filter (λ c, Name c = name) (Cookies r) with
       | c :: _ => Ok c
       | [] => Err ErrNoCookie
       end.

(** [r.Header.Get(key)], for a key in canonical form. *)
Definition Header_Get (key : string) (r : Request) : string :=
  match Header r !! key with
  | Some (v :: _) => v
  | _ => ""
  end.

Definition StatusOK : Z := 200.

End http.

Module gin.

Section context.
(** The values a session's [Data] holds. *)
Variable Value : Type.

(** The [interface{}] values the handlers store and send: strings, session
    pointers (by the record they point to at that time), and errors. *)
Inductive any :=
| AString (s : string)
| ASession (session : auth.Session Value)
| AError (e : errors.AppError).

(** The arguments of a call of [c.SetCookie]. *)
Record SetCookieArgs := {
  name : string;
  value : string;
  maxAge : Z;
  path : string;
  domain : string;
  secure : bool;
  httpOnly : bool
}.

(** [gin.Context]: the request, the keys set with [c.Set], the responses
    written with [c.JSON], the calls of [c.SetCookie], and whether
    [c.Abort] was called. *)
Record Context := {
  Request : http.Request;
  Keys : gmap string any;
  Written : list (Z * gmap string any);
  CookiesSet : list SetCookieArgs;
  Aborted : bool
}.

(** [c.JSON(code, obj)] *)
Definition JSON (code : Z) (obj : gmap string any) (c : Context) : Context :=
  {| Request := Request c; Keys := Keys c;
     Written := Written c ++ [(code, obj)];
     CookiesSet := CookiesSet c; Aborted := Aborted c |}.

(** [c.Abort()] *)
Definition Abort (c : Context) : Context :=
  {| Request := Request c; Keys := Keys c; Written := Written c;
     CookiesSet := CookiesSet c; Aborted := true |}.

(** [c.Set(key, value)] *)
Definition Set_ (key : string) (v : any) (c : Context) : Context :=
  {| Request := Request c; Keys := <[key := v]> (Keys c);
     Written := Written c; CookiesSet := CookiesSet c;
     Aborted := Aborted c |}.

(** [c.Get(key)] *)
Definition Get (key : string) (c : Context) : option any := Keys c !! key.

(** [c.GetHeader(key)] *)
Definition GetHeader (key : string) (c : Context) : string :=
  http.Header_Get key (Request c).

(** [c.SetCookie(name, value, maxAge, path, domain, secure, httpOnly)] *)
Definition SetCookie (name value : string) (maxAge : Z) (path domain : string)
    (secure httpOnly : bool) (c : Context) : Context :=
  {| Request := Request c; Keys := Keys c; Written := Written c;
     CookiesSet := CookiesSet c ++
       [ {| name := name; value := value; maxAge := maxAge;
            path := (if decide (path = "") then "/" else path);
            domain := domain; secure := secure; httpOnly := httpOnly |} ];
     Aborted := Aborted c |}.

End context.

Arguments AString {Value} s.
Arguments ASession {Value} session.
Arguments AError {Value} e.
Arguments Request {Value} _.
Arguments Keys {Value} _.
Arguments Written {Value} _.
Arguments CookiesSet {Value} _.
Arguments Aborted {Value} _.
Arguments JSON {Value} code obj c.
Arguments Abort {Value} c.
Arguments Set_ {Value} key v c.
Arguments Get {Value} key c.
Arguments GetHeader {Value} key c.
Arguments SetCookie {Value} name value maxAge path domain secure httpOnly c.

End gin.

(** ** The session manager's cookie methods, the session middleware
    ([AuthMiddleware]) and the [Logout] handler *)

Module sessionweb.
Import gin.

Section handlers.
Variable Value : Type.

(** The state a handler works on: the session manager and the context. *)
Definition state : Type := auth.SessionManager Value * Context Value.

(** [SessionManager.GetSessionFromContext]; [now1] and [now2] are the clock
    reads of [GetSession]. *)
Definition GetSessionFromContext (c : Context Value) (now1 now2 : Z)
    (sm : auth.SessionManager Value)
    : option (auth.Session Value) * bool * auth.SessionManager Value :=
  match http.Request_Cookie "session_id" (Request c) with
  | Err _ => (None, false, sm)
  | Ok sessionCookie => auth.GetSession (http.Value sessionCookie) now1 now2 sm
  end.

(** [SessionManager.ClearSessionCookie] *)
Definition ClearSessionCookie (c : Context Value) : Context Value :=
  let secure := http.TLS (Request c)
                || bool_decide (GetHeader "X-Forwarded-Proto" c = "https") in
  SetCookie "session_id" "" (-1) "/" "" secure true c.

(** The handler [AuthMiddleware.RequireAuth] returns; [Next] is what
    [c.Next()] runs.  The last branch is not reached: [GetSession] returns a
    session whenever it returns [true]. *)
Definition RequireAuth (Next : state → state) (now1 now2 : Z) (st : state)
    : state :=
  let '(sm, c) := st in
  match GetSessionFromContext c now1 now2 sm with
  | (_, false, sm) =>
      (sm, Abort (JSON errors.StatusUnauthorized
                    {[ "error" := AError (errors.NewUnauthorizedError
                                            "authentication required") ]} c))
  | (Some session, true, sm) =>
      Next (sm,
            Set_ "session" (ASession session)
              (Set_ "email" (AString (auth.Email session))
                 (Set_ "username" (AString (auth.Username session))
                    (Set_ "user_id" (AString (auth.UserID session)) c))))
  | (None, true, sm) => (sm, c)
  end.

(** The handler [AuthMiddleware.OptionalAuth] returns. *)
Definition OptionalAuth (Next : state → state) (now1 now2 : Z) (st : state)
    : state :=
  let '(sm, c) := st in
  match GetSessionFromContext c now1 now2 sm with
  | (Some session, true, sm) =>
      Next (sm,
            Set_ "session" (ASession session)
              (Set_ "email" (AString (auth.Email session))
                 (Set_ "username" (AString (auth.Username session))
                    (Set_ "user_id" (AString (auth.UserID session)) c))))
  | (_, _, sm) => Next (sm, c)
  end.

(** [userRole != role], an interface value against a string: they are
    equal when the value is a string and the strings are equal. *)
Definition differs (userRole : any Value) (role : string) : bool :=
  match userRole with
  | AString s => bool_decide (s ≠ role)
  | _ => true
  end.

(** [userRole.(string)] *)
Definition as_string (userRole : any Value) : option string :=
  match userRole with
  | AString s => Some s
  | _ => None
  end.

Definition role_not_available : gmap string (any Value) :=
  {[ "error" := AError (errors.NewForbiddenError
                          "role information not available") ]}.

(** [RequireRole(role)] *)
Definition RequireRole (role : string) (Next : Context Value → Context Value)
    (c : Context Value) : Context Value :=
  match Get "user_role" c with
  | None => Abort (JSON errors.StatusForbidden role_not_available c)
  | Some userRole =>
      if differs userRole role
      then Abort (JSON errors.StatusForbidden
                    {[ "error" := AError (errors.NewForbiddenError
                                            "insufficient permissions") ]} c)
      else Next c
  end.

(** [RequireOrganizationMember(organizationID)] *)
Definition RequireOrganizationMember (organizationID : string)
    (Next : Context Value → Context Value) (c : Context Value)
    : Context Value :=
  match Get "user_id" c with
  | None =>
      Abort (JSON errors.StatusUnauthorized
               {[ "error" := AError (errors.NewUnauthorizedError
                                       "authentication required") ]} c)
  | Some _ => Next (Set_ "organization_id" (AString organizationID) c)
  end.

(** [RequireOrganizationAdmin()] *)
Definition RequireOrganizationAdmin (Next : Context Value → Context Value)
    (c : Context Value) : Context Value :=
  match Get "user_role" c with
  | None => Abort (JSON errors.StatusForbidden role_not_available c)
  | Some userRole =>
      match as_string userRole with
      | Some role =>
          if bool_decide (role ≠ "owner") && bool_decide (role ≠ "admin")
          then Abort (JSON errors.StatusForbidden
                        {[ "error" := AError (errors.NewForbiddenError
                                                "admin privileges required") ]}
                        c)
          else Next c
      | None =>
          Abort (JSON errors.StatusForbidden
                   {[ "error" := AError (errors.NewForbiddenError
                                           "admin privileges required") ]} c)
      end
  end.

(** [RequireOrganizationOwner()] *)
Definition RequireOrganizationOwner (Next : Context Value → Context Value)
    (c : Context Value) : Context Value :=
  match Get "user_role" c with
  | None => Abort (JSON errors.StatusForbidden role_not_available c)
  | Some userRole =>
      if differs userRole "owner"
      then Abort (JSON errors.StatusForbidden
                    {[ "error" := AError (errors.NewForbiddenError
                                            "owner privileges required") ]} c)
      else Next c
  end.

(** [AuthHandler.Logout]; the session manager is the handler's
    [sessionManager] field.  The last branch of the match is not reached. *)
Definition Logout (now1 now2 : Z) (st : state) : state :=
  let '(sm, c) := st in
  let sm :=
    match GetSessionFromContext c now1 now2 sm with
    | (Some session, true, sm) => auth.DeleteSession (auth.ID session) sm
    | (_, false, sm) => sm
    | (None, true, sm) => sm
    end in
  (sm, JSON http.StatusOK
         {[ "message" := AString "Logged out successfully" ]}
         (ClearSessionCookie c)).

End handlers.

Arguments GetSessionFromContext {Value} c now1 now2 sm.
Arguments ClearSessionCookie {Value} c.
Arguments RequireAuth {Value} Next now1 now2 st.
Arguments OptionalAuth {Value} Next now1 now2 st.
Arguments differs {Value} userRole role.
Arguments as_string {Value} userRole.
Arguments RequireRole {Value} role Next c.
Arguments RequireOrganizationMember {Value} organizationID Next c.
Arguments RequireOrganizationAdmin {Value} Next c.
Arguments RequireOrganizationOwner {Value} Next c.
Arguments Logout {Value} now1 now2 st.

End sessionweb.

(** ** The end-to-end scenarios: concrete services and managers *)

Module scenario.

(** A rendering of the authorization URL that carries the state token. *)
Definition AuthCodeURL (cfg : oauth.Config) (state : string) : string :=
  "https://github.com/login/oauth/authorize?access_type=offline&client_id="
    +:+ oauth.ClientID cfg +:+ "&state=" +:+ state.

Definition cfg : oauth.Config :=
  {| oauth.ClientID := "client-id";
     oauth.ClientSecret := "client-secret";
     oauth.RedirectURL := "http://localhost:8080/auth/github/callback";
     oauth.Scopes := ["user:email"] |}.

(** Two fillings of the 32-byte buffer. *)
Definition entropy1 : list Byte.byte := replicate 32 Byte.x2a.
Definition entropy2 : list Byte.byte := replicate 32 Byte.xc7.

Definition S1 : string := base64.EncodeToString entropy1.
Definition S2 : string := base64.EncodeToString entropy2.

Definition service0 : oauth.OAuthService :=
  {| oauth.config := cfg; oauth.states := ∅ |}.

(** [S1] issued at time 0. *)
Definition service1 : oauth.OAuthService :=
  (oauth.GetAuthURL AuthCodeURL (Ok entropy1) 0 service0).2.

Definition id1 : string := hex.EncodeToString entropy1.
Definition id2 : string := hex.EncodeToString entropy2.

(** A manager with a timeout of 20 time units. *)
Definition manager0 : auth.SessionManager string :=
  auth.NewSessionManager string 20.

(** A session for [u1] created at time 0. *)
Definition manager1 : auth.SessionManager string :=
  (auth.CreateSession (Ok entropy1) 0 0 "u1" "alice" "alice@example.com"
     manager0).2.

Definition session1 : auth.Session string :=
  {| auth.ID := id1; auth.UserID := "u1"; auth.Username := "alice";
     auth.Email := "alice@example.com"; auth.CreatedAt := 0;
     auth.ExpiresAt := 20; auth.Data := ∅ |}.

(** A second session, for [u2], created at time 15. *)
Definition manager2 : auth.SessionManager string :=
  (auth.CreateSession (Ok entropy2) 15 15 "u2" "bob" "bob@example.com"
     manager1).2.

Definition session2 : auth.Session string :=
  {| auth.ID := id2; auth.UserID := "u2"; auth.Username := "bob";
     auth.Email := "bob@example.com"; auth.CreatedAt := 15;
     auth.ExpiresAt := 35; auth.Data := ∅ |}.

Definition data1 : gmap string string :=
  {[ "theme" := "dark"; "lang" := "en" ]}.
Definition data2 : gmap string string :=
  {[ "theme" := "light"; "tz" := "UTC" ]}.

(** [manager2] once [data1] is stored in the first session. *)
Definition manager3 : auth.SessionManager string :=
  auth.UpdateSession id1 data1 manager2.

(** A request with a session cookie. *)
Definition request1 : middleware.Request :=
  {| middleware.Cookies :=
       [ {| middleware.Name := "theme"; middleware.Value := "dark" |};
         {| middleware.Name := "session"; middleware.Value := id1 |} ] |}.

(** An environment that configures the client id only. *)
Definition Getenv (key : string) : string :=
  if decide (key = "GITHUB_CLIENT_ID") then "client-id" else "".

(** A service that starts empty and issues [S1] at time 0. *)
Definition oauth_history : list oauth.call :=
  [ oauth.CallGetAuthURL (Ok entropy1) 0 ].

(** Calls that leave [S1] alone up to time 300. *)
Definition oauth_quiet_calls : list oauth.call :=
  [ oauth.CallCleanupTick 100;
    oauth.CallGetAuthURL (Ok entropy2) 200;
    oauth.CallValidateState S2 250 ].

(** The history of [manager1]. *)
Definition session_history : list (auth.call string) :=
  [ auth.CallCreateSession (Ok entropy1) 0 0 "u1" "alice"
      "alice@example.com" ].

Definition alice : memory.User :=
  {| memory.ID := "u1"; memory.Username := "alice"; memory.Name := "Alice";
     memory.Email := "alice@example.com"; memory.AvatarURL := "";
     memory.Bio := ""; memory.Location := ""; memory.Website := "";
     memory.Company := ""; memory.CreatedAt := 0; memory.UpdatedAt := 0;
     memory.Favorites := [] |}.

Definition bob : memory.User :=
  {| memory.ID := "u2"; memory.Username := "bob"; memory.Name := "Bob";
     memory.Email := "bob@example.com"; memory.AvatarURL := "";
     memory.Bio := ""; memory.Location := ""; memory.Website := "";
     memory.Company := ""; memory.CreatedAt := 15; memory.UpdatedAt := 15;
     memory.Favorites := [] |}.

Definition carol : memory.User :=
  {| memory.ID := "u3"; memory.Username := "carol"; memory.Name := "Carol";
     memory.Email := "carol@example.com"; memory.AvatarURL := "";
     memory.Bio := ""; memory.Location := ""; memory.Website := "";
     memory.Company := ""; memory.CreatedAt := 30; memory.UpdatedAt := 30;
     memory.Favorites := [] |}.

(** [alice] with a new biography and the same name and email. *)
Definition alice_edited : memory.User :=
  {| memory.ID := "u1"; memory.Username := "alice"; memory.Name := "Alice";
     memory.Email := "alice@example.com"; memory.AvatarURL := "";
     memory.Bio := "dotfiles"; memory.Location := ""; memory.Website := "";
     memory.Company := ""; memory.CreatedAt := 0; memory.UpdatedAt := 40;
     memory.Favorites := [] |}.

Definition repository_history : list memory.call :=
  [ memory.CallCreate alice; memory.CallCreate bob;
    memory.CallAddFavorite "u1" "t1"; memory.CallAddFavorite "u1" "t2" ].

(** Two users, the first with the favorites [t1] and [t2]. *)
Definition repository1 : memory.UserRepository :=
  memory.run repository_history memory.NewUserRepository.

(** A request that carries the id of the first session, behind a proxy
    that terminates TLS. *)
Definition request_id1 : http.Request :=
  {| http.Cookies := [ {| http.Name := "session_id"; http.Value := id1 |} ];
     http.TLS := false;
     http.Header := {[ "X-Forwarded-Proto" := ["https"] ]} |}.

Definition context1 : gin.Context string :=
  {| gin.Request := request_id1; gin.Keys := ∅; gin.Written := [];
     gin.CookiesSet := []; gin.Aborted := false |}.

(** A context whose role key holds [owner]. *)
Definition context_owner : gin.Context string :=
  {| gin.Request := request_id1;
     gin.Keys := {[ "user_role" := gin.AString "owner" ]};
     gin.Written := []; gin.CookiesSet := []; gin.Aborted := false |}.

(** Lower-casing of the letters A to Z, byte by byte. *)
Definition lower_byte (c : ascii) : ascii :=
  let n := nat_of_ascii c in
  if (65 <=? n)%nat && (n <=? 90)%nat then ascii_of_nat (n + 32) else c.

Fixpoint ToLower (s : string) : string :=
  match s with
  | EmptyString => EmptyString
  | String c s => String (lower_byte c) (ToLower s)
  end.

End scenario.

(** * Part II: properties *)

(** ** Time *)

Lemma After_true (t u : Z) : time.After t u = true ↔ u < t.
Proof. unfold time.After. apply Z.ltb_lt. Qed.

Lemma After_false (t u : Z) : time.After t u = false ↔ t ≤ u.
Proof. unfold time.After. by rewrite Z.ltb_ge. Qed.

(** ** Range loops *)

Section range_loops.
Context {V : Type}.
Implicit Types (m d : gmap string V) (order : list (string * V)).

Lemma range_delete_cons cond k v order m :
  range_delete cond ((k, v) :: order) m =
  range_delete cond order (if cond v then delete k m else m).
Proof. reflexivity. Qed.

Lemma range_assign_cons k v order m :
  range_assign ((k, v) :: order) m = range_assign order (<[k := v]> m).
Proof. reflexivity. Qed.

(** A deleting loop never brings a key back. *)
Lemma range_delete_absent cond order m k :
  m !! k = None → range_delete cond order m !! k = None.
Proof.
  revert m. induction order as [|[k' v'] order IH]; intros m Hm; [done|].
  rewrite range_delete_cons. apply IH. destruct (cond v'); [|done].
  destruct (decide (k' = k)) as [->|Hne].
  - apply lookup_delete_eq.
  - by rewrite lookup_delete_ne.
Qed.

Lemma range_delete_hit cond order m k v :
  (k, v) ∈ order → cond v = true → range_delete cond order m !! k = None.
Proof.
  revert m. induction order as [|[k' v'] order IH]; intros m Hin Hc.
  - by apply elem_of_nil in Hin.
  - apply elem_of_cons in Hin as [Heq|Hin].
    + injection Heq as <- <-. rewrite range_delete_cons, Hc.
      apply range_delete_absent, lookup_delete_eq.
    + rewrite range_delete_cons. by apply IH.
Qed.

Lemma range_delete_miss cond order m k :
  (∀ v, (k, v) ∈ order → cond v = false) →
  range_delete cond order m !! k = m !! k.
Proof.
  revert m. induction order as [|[k' v'] order IH]; intros m Hall; [done|].
  rewrite range_delete_cons, IH.
  - destruct (cond v') eqn:Hc; [|done].
    destruct (decide (k' = k)) as [->|Hne].
    + rewrite (Hall v') in Hc; [done|]. apply elem_of_cons. by left.
    + by rewrite lookup_delete_ne.
  - intros v Hin. apply Hall, elem_of_cons. by right.
Qed.

(** Ranging over the map itself and deleting the entries that satisfy
    [cond] keeps exactly the others, whatever the visiting order. *)
Lemma range_delete_lookup cond order m k :
  order ≡ₚ map_to_list m →
  range_delete cond order m !! k =
    match m !! k with
    | Some v => if cond v then None else Some v
    | None => None
    end.
Proof.
  intros Hperm. destruct (m !! k) as [v|] eqn:Hk.
  - assert ((k, v) ∈ order) as Hin.
    { rewrite Hperm. by apply elem_of_map_to_list. }
    destruct (cond v) eqn:Hc.
    + by eapply range_delete_hit.
    + rewrite range_delete_miss; [done|].
      intros v' Hin'. rewrite Hperm in Hin'.
      apply elem_of_map_to_list in Hin'. congruence.
  - by apply range_delete_absent.
Qed.

Lemma range_assign_miss order m k :
  k ∉ order.*1 → range_assign order m !! k = m !! k.
Proof.
  revert m. induction order as [|[k' v'] order IH]; intros m Hnot; [done|].
  rewrite fmap_cons in Hnot. apply not_elem_of_cons in Hnot as [Hne Hnot].
  rewrite range_assign_cons, IH; [|done]. by rewrite lookup_insert_ne.
Qed.

Lemma range_assign_hit order m k v :
  NoDup order.*1 → (k, v) ∈ order → range_assign order m !! k = Some v.
Proof.
  revert m. induction order as [|[k' v'] order IH]; intros m Hnd Hin.
  - by apply elem_of_nil in Hin.
  - rewrite fmap_cons in Hnd. apply NoDup_cons in Hnd as [Hfresh Hnd].
    rewrite range_assign_cons.
    apply elem_of_cons in Hin as [Heq|Hin].
    + injection Heq as <- <-.
      rewrite range_assign_miss; [|done]. apply lookup_insert_eq.
    + by apply IH.
Qed.

(** Ranging over [d] and assigning into [m] gives [d]'s value at every key
    of [d] and [m]'s value elsewhere, whatever the visiting order. *)
Lemma range_assign_lookup order d m k :
  order ≡ₚ map_to_list d →
  range_assign order m !! k =
    match d !! k with
    | Some v => Some v
    | None => m !! k
    end.
Proof.
  intros Hperm. destruct (d !! k) as [v|] eqn:Hk.
  - apply range_assign_hit.
    + rewrite Hperm. apply NoDup_fst_map_to_list.
    + rewrite Hperm. by apply elem_of_map_to_list.
  - apply range_assign_miss. rewrite Hperm.
    intros Hin. apply list_elem_of_fmap in Hin as ([k' v] & -> & Hin).
    apply elem_of_map_to_list in Hin. cbn in Hk. congruence.
Qed.

Lemma range_assign_union order d m :
  order ≡ₚ map_to_list d → range_assign order m = d ∪ m.
Proof.
  intros Hperm. apply map_eq. intros k.
  rewrite (range_assign_lookup order d) by done.
  rewrite lookup_union. by destruct (d !! k), (m !! k).
Qed.

End range_loops.

(** ** The OAuth state registry *)

Section oauth_properties.
Import oauth.
Variable AuthCodeURL : Config → string → string.

Local Abbreviation GetAuthURL := (oauth.GetAuthURL AuthCodeURL).
Local Abbreviation step := (oauth.step AuthCodeURL).
Local Abbreviation run := (oauth.run AuthCodeURL).

Lemma GetAuthURL_stores b now s :
  GetAuthURL (Ok b) now s =
    (Ok (AuthCodeURL (config s) (base64.EncodeToString b)),
     {| config := config s;
        states := <[base64.EncodeToString b :=
                      {| Token := base64.EncodeToString b;
                         ExpiresAt := now + 10 * time.Minute |}]>
                    (states s) |}).
Proof. reflexivity. Qed.

Lemma GetAuthURL_error err now s :
  GetAuthURL (Err err) now s =
    (Err ("failed to generate state: " +:+ err), s).
Proof. reflexivity. Qed.

Lemma cleanupExpiredStates_tick_lookup now s k :
  states (cleanupExpiredStates_tick now s) !! k =
    match states s !! k with
    | Some st => if time.After now (ExpiresAt st) then None else Some st
    | None => None
    end.
Proof. cbn. by rewrite range_delete_lookup. Qed.

Lemma ValidateState_absent t now s :
  states s !! t = None → ValidateState t now s = (false, s).
Proof. intros Ht. unfold ValidateState. by rewrite Ht. Qed.

(** A token that is not in the registry stays out of it unless a call
    issues it. *)
Lemma oauth_step_absent t c s :
  ¬ issues t c → states s !! t = None → states (step c s) !! t = None.
Proof.
  intros Hc Ht. destruct c as [[b|err] now|state now|now]; cbn in *.
  - by rewrite lookup_insert_ne.
  - done.
  - unfold ValidateState.
    destruct (states s !! state) as [st|] eqn:Hst; [|done].
    destruct (time.After now (ExpiresAt st)); cbn;
      (destruct (decide (state = t)) as [->|Hne];
       [apply lookup_delete_eq | by rewrite lookup_delete_ne]).
  - by apply range_delete_absent.
Qed.

Lemma oauth_run_absent t cs s :
  Forall (λ c, ¬ issues t c) cs →
  states s !! t = None → states (run cs s) !! t = None.
Proof.
  intros Hcs. revert s.
  induction Hcs as [|c cs Hc _ IH]; intros s Ht; [done|].
  cbn. apply IH. by apply oauth_step_absent.
Qed.

(** C1: when [ValidateState t] returns [true] the token [t] is no longer in
    the registry, and after any further calls that do not issue [t] again,
    [ValidateState t] returns [false]: a token validates at most once. *)
Theorem ValidateState_single_use (t : string) (now : Z)
    (s s' : OAuthService) :
  ValidateState t now s = (true, s') →
  states s' !! t = None ∧
  ∀ (cs : list call) (now' : Z),
    Forall (λ c, ¬ issues t c) cs →
    ValidateState t now' (run cs s') = (false, run cs s').
Proof.
  unfold ValidateState at 1. intros Hv.
  destruct (states s !! t) as [st|]; [|done].
  assert (states s' !! t = None) as Hgone.
  { destruct (time.After now (ExpiresAt st)); [done|].
    injection Hv as <-. apply lookup_delete_eq. }
  split; [done|]. intros cs now' Hcs.
  by apply ValidateState_absent, oauth_run_absent.
Qed.

(** C2: a token in the registry whose [ExpiresAt] is strictly before the
    current time does not validate, even at the first attempt, and the
    attempt removes it from the registry. *)
Theorem ValidateState_expired (t : string) (st : OAuthState) (now : Z)
    (s : OAuthService) :
  states s !! t = Some st →
  ExpiresAt st < now →
  ValidateState t now s =
    (false, {| config := config s; states := delete t (states s) |}) ∧
  states (ValidateState t now s).2 !! t = None.
Proof.
  intros Ht Hexp. unfold ValidateState. rewrite Ht.
  apply After_true in Hexp. rewrite Hexp. cbn.
  split; [done|]. apply lookup_delete_eq.
Qed.

End oauth_properties.

(** ** The session manager *)

Section auth_properties.
Import auth.
Context {Value : Type}.
Implicit Types (sm : SessionManager Value) (s session : Session Value).
Implicit Types (id : string) (data : gmap string Value).

Lemma GetSession_absent id now1 now2 sm :
  sessions sm !! id = None → GetSession id now1 now2 sm = (None, false, sm).
Proof. intros Hid. unfold GetSession. by rewrite Hid. Qed.

Lemma GetSession_expired id s now1 now2 sm :
  sessions sm !! id = Some s → ExpiresAt s < now1 →
  GetSession id now1 now2 sm =
    (None, false, set_sessions (delete id (sessions sm)) sm).
Proof.
  intros Hid Hexp. unfold GetSession. rewrite Hid.
  apply After_true in Hexp. by rewrite Hexp.
Qed.

Lemma GetSession_live id s now1 now2 sm :
  sessions sm !! id = Some s → now1 ≤ ExpiresAt s →
  GetSession id now1 now2 sm =
    (Some (set_ExpiresAt (now2 + timeout sm) s), true,
     set_sessions
       (<[id := set_ExpiresAt (now2 + timeout sm) s]> (sessions sm)) sm).
Proof.
  intros Hid Hlive. unfold GetSession. rewrite Hid.
  apply After_false in Hlive. by rewrite Hlive.
Qed.

Lemma cleanupExpiredSessions_tick_in_lookup order now sm id :
  order ≡ₚ map_to_list (sessions sm) →
  sessions (cleanupExpiredSessions_tick_in order now sm) !! id =
    match sessions sm !! id with
    | Some s => if time.After now (ExpiresAt s) then None else Some s
    | None => None
    end.
Proof. intros Hperm. cbn. by rewrite range_delete_lookup. Qed.

Lemma UpdateSession_in_present order id data s sm :
  order ≡ₚ map_to_list data → sessions sm !! id = Some s →
  UpdateSession_in order id sm =
    set_sessions (<[id := set_Data (data ∪ Data s) s]> (sessions sm)) sm.
Proof.
  intros Hperm Hid. unfold UpdateSession_in. rewrite Hid.
  by rewrite (range_assign_union order data).
Qed.

Lemma UpdateSession_in_absent order id sm :
  sessions sm !! id = None → UpdateSession_in order id sm = sm.
Proof. intros Hid. unfold UpdateSession_in. by rewrite Hid. Qed.

(** Repeated reads at gaps of at most the timeout all find the session. *)
Lemma GetSession_each_found id reads : ∀ sm s last,
  sessions sm !! id = Some s →
  ExpiresAt s = last + timeout sm →
  gaps_within (timeout sm) last reads →
  Forall (λ found, found = true) (GetSession_each id reads sm).1.
Proof.
  induction reads as [|[now1 now2] reads IH]; intros sm s last Hid He Hgaps.
  - constructor.
  - destruct Hgaps as [Hgap Hgaps]. cbn [GetSession_each].
    rewrite (GetSession_live id s) by (done || lia).
    destruct (GetSession_each id reads _) as [founds sm2] eqn:Hrest.
    cbn. constructor; [done|].
    change founds with (founds, sm2).1. rewrite <- Hrest.
    eapply (IH _ _ now2); [apply lookup_insert_eq|done..].
Qed.

(** Calls that do not access [id] never push its expiry forward. *)
Lemma auth_step_expiry id (e : Z) (c : call Value) sm :
  ¬ accesses id c →
  (∀ s, sessions sm !! id = Some s → ExpiresAt s ≤ e) →
  ∀ s, sessions (step c sm) !! id = Some s → ExpiresAt s ≤ e.
Proof.
  intros Hc Hinv s.
  destruct c as [[bytes|err] now1 now2 userID username email
                |id' now1 now2|id'|id' data|now]; cbn in Hc |- *.
  - rewrite lookup_insert_ne by done. apply Hinv.
  - apply Hinv.
  - unfold GetSession. destruct (sessions sm !! id') as [s'|]; [|apply Hinv].
    destruct (time.After now1 (ExpiresAt s')); cbn.
    + rewrite lookup_delete_ne by done. apply Hinv.
    + rewrite lookup_insert_ne by done. apply Hinv.
  - destruct (decide (id' = id)) as [->|Hne].
    + by rewrite lookup_delete_eq.
    + rewrite lookup_delete_ne by done. apply Hinv.
  - unfold UpdateSession, UpdateSession_in.
    destruct (sessions sm !! id') as [s'|] eqn:Hid'; [|apply Hinv]. cbn.
    destruct (decide (id' = id)) as [->|Hne].
    + rewrite lookup_insert_eq. intros [= <-]. cbn. by apply Hinv.
    + rewrite lookup_insert_ne by done. apply Hinv.
  - rewrite range_delete_lookup by done.
    destruct (sessions sm !! id) as [s'|] eqn:Hid; [|done].
    destruct (time.After now (ExpiresAt s')); [done|].
    intros [= <-]. by apply Hinv.
Qed.

Lemma auth_run_expiry id (e : Z) (cs : list (call Value)) : ∀ sm,
  Forall (λ c, ¬ accesses id c) cs →
  (∀ s, sessions sm !! id = Some s → ExpiresAt s ≤ e) →
  ∀ s, sessions (run cs sm) !! id = Some s → ExpiresAt s ≤ e.
Proof.
  induction cs as [|c cs IH]; intros sm Hcs Hinv; [done|].
  apply Forall_cons in Hcs as [Hc Hcs]. cbn.
  apply IH; [done|]. by apply auth_step_expiry.
Qed.

(** C3: [GetSession] on a session that is present and not past its
    [ExpiresAt] returns it with [found = true] and sets its [ExpiresAt] to
    the time read for the extension plus the timeout.  Hence reads that
    each start at most the timeout after the previous access all find the
    session, and a read that starts more than the timeout after the last
    access, with no access to the session in between, does not find it. *)
Theorem GetSession_sliding (id : string) (s : Session Value)
    (now1 now2 : Z) (sm : SessionManager Value) :
  sessions sm !! id = Some s →
  now1 ≤ ExpiresAt s →
  let s' := set_ExpiresAt (now2 + timeout sm) s in
  let sm' := set_sessions (<[id := s']> (sessions sm)) sm in
  GetSession id now1 now2 sm = (Some s', true, sm') ∧
  ExpiresAt s' = now2 + timeout sm ∧
  (∀ reads : list (Z * Z),
     gaps_within (timeout sm) now2 reads →
     Forall (λ found, found = true) (GetSession_each id reads sm').1) ∧
  (∀ (cs : list (call Value)) (now1' now2' : Z),
     Forall (λ c, ¬ accesses id c) cs →
     timeout sm < now1' - now2 →
     (GetSession id now1' now2' (run cs sm')).1 = (None, false)).
Proof.
  intros Hid Hlive s' sm'. split_and!.
  - by apply GetSession_live.
  - done.
  - intros reads Hgaps.
    apply (GetSession_each_found id reads sm' s' now2);
      [apply lookup_insert_eq|done..].
  - intros cs now1' now2' Hcs Hgap.
    assert (∀ s2, sessions (run cs sm') !! id = Some s2 →
                  ExpiresAt s2 ≤ now2 + timeout sm) as Hbound.
    { apply auth_run_expiry; [done|]. intros s2. cbn.
      rewrite lookup_insert_eq. by intros [= <-]. }
    destruct (sessions (run cs sm') !! id) as [s2|] eqn:Hid2.
    + rewrite (GetSession_expired id s2); [done..|].
      specialize (Hbound s2 eq_refl). lia.
    + by rewrite GetSession_absent.
Qed.

(** C4: [GetSession] on a session whose [ExpiresAt] is strictly before the
    current time deletes the entry and returns [(nil, false)]; on an id
    that is not in the table it returns [found = false] and leaves the
    table as it is. *)
Theorem GetSession_expired_or_absent (id : string) (now1 now2 : Z)
    (sm : SessionManager Value) :
  (∀ s : Session Value,
     sessions sm !! id = Some s → ExpiresAt s < now1 →
     GetSession id now1 now2 sm =
       (None, false, set_sessions (delete id (sessions sm)) sm) ∧
     sessions (GetSession id now1 now2 sm).2 !! id = None) ∧
  (sessions sm !! id = None →
   GetSession id now1 now2 sm = (None, false, sm)).
Proof.
  split.
  - intros s Hid Hexp. rewrite (GetSession_expired id s) by done.
    split; [done|]. apply lookup_delete_eq.
  - apply GetSession_absent.
Qed.

(** C5: when [CreateSession] succeeds, a [GetSession] of the new id that
    starts no later than the expiry set at creation finds a record with the
    user id, user name and email passed to [CreateSession], the creation
    time as [CreatedAt], and an empty [Data]. *)
Theorem CreateSession_then_GetSession (rnd : result (list Byte.byte))
    (now1 now2 : Z) (userID username email : string)
    (sm sm' : SessionManager Value) (session : Session Value) :
  CreateSession rnd now1 now2 userID username email sm = (Ok session, sm') →
  sessions sm' !! ID session = Some session ∧
  ∀ now3 now4 : Z,
    now3 ≤ now2 + timeout sm →
    ∃ (found : Session Value) (sm'' : SessionManager Value),
      GetSession (ID session) now3 now4 sm' = (Some found, true, sm'') ∧
      ID found = ID session ∧
      UserID found = userID ∧
      Username found = username ∧
      Email found = email ∧
      CreatedAt found = now1 ∧
      Data found = ∅.
Proof.
  unfold CreateSession. destruct (generateSessionID rnd) as [sessionID|err];
    [|done].
  intros [= <- <-]. cbn. split; [apply lookup_insert_eq|].
  intros now3 now4 Hlive. eexists _, _. split.
  - apply GetSession_live; [apply lookup_insert_eq|done].
  - done.
Qed.

(** C6: one sweep of the session reaper at time [now] deletes exactly the
    entries whose [ExpiresAt] is strictly before [now] and leaves every
    other entry as it is, in whatever order it visits the table; when all
    sessions are past expiry the sweep empties the table. *)
Theorem cleanupExpiredSessions_tick_exact
    (order : list (string * Session Value)) (now : Z)
    (sm : SessionManager Value) :
  order ≡ₚ map_to_list (sessions sm) →
  let sm' := cleanupExpiredSessions_tick_in order now sm in
  (∀ id s, sessions sm !! id = Some s → ExpiresAt s < now →
           sessions sm' !! id = None) ∧
  (∀ id s, sessions sm !! id = Some s → now ≤ ExpiresAt s →
           sessions sm' !! id = Some s) ∧
  (∀ id, sessions sm !! id = None → sessions sm' !! id = None) ∧
  timeout sm' = timeout sm ∧
  ((∀ id s, sessions sm !! id = Some s → ExpiresAt s < now) →
   sessions sm' = ∅).
Proof.
  intros Hperm sm'.
  assert (∀ id, sessions sm' !! id =
                match sessions sm !! id with
                | Some s => if time.After now (ExpiresAt s) then None else Some s
                | None => None
                end) as Hlook.
  { intros id. by apply cleanupExpiredSessions_tick_in_lookup. }
  split_and!.
  - intros id s Hid Hexp. rewrite Hlook, Hid.
    apply After_true in Hexp. by rewrite Hexp.
  - intros id s Hid Hlive. rewrite Hlook, Hid.
    apply After_false in Hlive. by rewrite Hlive.
  - intros id Hid. by rewrite Hlook, Hid.
  - done.
  - intros Hall. apply map_empty. intros id. rewrite Hlook.
    destruct (sessions sm !! id) as [s|] eqn:Hid; [|done].
    apply Hall, After_true in Hid. by rewrite Hid.
Qed.

(** C7: [DeleteSession] is total and has no error result; afterwards the
    table does not contain the id, deleting twice gives the same table as
    deleting once, and deleting an id that is not there changes nothing. *)
Theorem DeleteSession_idempotent (id : string) (sm : SessionManager Value) :
  sessions (DeleteSession id sm) !! id = None ∧
  DeleteSession id (DeleteSession id sm) = DeleteSession id sm ∧
  (sessions sm !! id = None → DeleteSession id sm = sm).
Proof.
  unfold DeleteSession, set_sessions. cbn. split_and!.
  - apply lookup_delete_eq.
  - by rewrite delete_delete_eq.
  - intros Hid. rewrite delete_id by done. by destruct sm.
Qed.

(** C8: on a session that is present, [UpdateSession] sets every key of the
    given map to its value there and keeps every other key of the
    session's [Data], in whatever order it visits the given map; on an id
    that is not in the table it changes nothing (and it has no error
    result). *)
Theorem UpdateSession_merges (order : list (string * Value))
    (id : string) (data : gmap string Value) (sm : SessionManager Value) :
  order ≡ₚ map_to_list data →
  (∀ s : Session Value,
     sessions sm !! id = Some s →
     ∃ s' : Session Value,
       sessions (UpdateSession_in order id sm) !! id = Some s' ∧
       (∀ k v, data !! k = Some v → Data s' !! k = Some v) ∧
       (∀ k, data !! k = None → Data s' !! k = Data s !! k)) ∧
  (sessions sm !! id = None → UpdateSession_in order id sm = sm).
Proof.
  intros Hperm. split.
  - intros s Hid. rewrite (UpdateSession_in_present order id data s) by done.
    eexists. split; [apply lookup_insert_eq|]. cbn. split.
    + intros k v Hk. by apply lookup_union_Some_l.
    + intros k Hk. by apply lookup_union_r.
  - apply UpdateSession_in_absent.
Qed.

(** C10: [UpdateSession] changes only the [Data] of the session with the
    given id: the id, user id, user name, email, [CreatedAt] and
    [ExpiresAt] stay as they are, every other session and the timeout stay
    as they are, and the merge happens whatever the session's [ExpiresAt],
    also when a [GetSession] at that time would find the session
    expired. *)
Theorem UpdateSession_frame (order : list (string * Value))
    (id : string) (data : gmap string Value) (s : Session Value)
    (sm : SessionManager Value) :
  order ≡ₚ map_to_list data →
  sessions sm !! id = Some s →
  let sm' := UpdateSession_in order id sm in
  (∃ s' : Session Value,
     sessions sm' !! id = Some s' ∧
     ID s' = ID s ∧ UserID s' = UserID s ∧ Username s' = Username s ∧
     Email s' = Email s ∧ CreatedAt s' = CreatedAt s ∧
     ExpiresAt s' = ExpiresAt s ∧
     Data s' = data ∪ Data s) ∧
  (∀ id', id' ≠ id → sessions sm' !! id' = sessions sm !! id') ∧
  timeout sm' = timeout sm ∧
  (∀ now1 now2 : Z,
     ExpiresAt s < now1 →
     (GetSession id now1 now2 sm).1 = (None, false) ∧
     sessions sm' !! id = Some (set_Data (data ∪ Data s) s)).
Proof.
  intros Hperm Hid sm'. unfold sm'.
  rewrite (UpdateSession_in_present order id data s) by done. cbn.
  split_and!.
  - eexists. split; [apply lookup_insert_eq|]. done.
  - intros id' Hne. by rewrite lookup_insert_ne.
  - done.
  - intros now1 now2 Hexp. rewrite (GetSession_expired id s) by done.
    split; [done|]. apply lookup_insert_eq.
Qed.

End auth_properties.

(** ** The legacy middleware *)

Section middleware_properties.
Import middleware.
Context {any : Type} (NewUnauthorizedError : string → any).

(** C9: [getSession] returns [nil] for every request, whatever cookies it
    carries, so [RequireAuth] answers every request with 401
    "authentication required", aborts, sets no key and never runs the rest
    of the chain. *)
Theorem getSession_always_nil (c : Context any) :
  getSession c = None ∧
  ∀ Next : Context any → Context any,
    RequireAuth NewUnauthorizedError Next c =
      Abort (JSON StatusUnauthorized
               {[ "error" := NewUnauthorizedError "authentication required" ]}
               c) ∧
    Aborted (RequireAuth NewUnauthorizedError Next c) = true ∧
    Keys (RequireAuth NewUnauthorizedError Next c) = Keys c.
Proof.
  assert (getSession c = None) as Hnil.
  { unfold getSession.
    destruct (Request_Cookie "session" (Request_ c)) as [sessionCookie|err];
      [|done].
    by destruct (decide (Value sessionCookie = "")). }
  split; [done|]. intros Next. unfold RequireAuth. by rewrite Hnil.
Qed.

End middleware_properties.

(** ** The scenarios, run through the theorems *)

Section scenarios.
Import scenario.

(** Scenario 1: [S1] validates once, and it does not validate again after a
    sweep and the issue of another token. *)
Lemma ValidateState_single_use_witness :
  oauth.ValidateState S1 5 service1 = (true, service0) ∧
  oauth.states service0 !! S1 = None ∧
  (oauth.ValidateState S1 9
     (oauth.run AuthCodeURL
        [oauth.CallCleanupTick 7; oauth.CallGetAuthURL (Ok entropy2) 8]
        service0)).1 = false.
Proof.
  assert (oauth.ValidateState S1 5 service1 = (true, service0)) as Hv
    by (vm_compute; reflexivity).
  destruct (ValidateState_single_use AuthCodeURL S1 5 service1 service0 Hv)
    as [Hgone Hagain].
  split_and!; [exact Hv | exact Hgone |].
  rewrite Hagain; [reflexivity|].
  repeat constructor; vm_compute; [tauto | discriminate].
Defined.

(** Scenario 2: [S1], issued at time 0, no longer validates one nanosecond
    after its ten minutes. *)
Lemma ValidateState_expired_witness :
  oauth.states service1 !! S1 =
    Some {| oauth.Token := S1; oauth.ExpiresAt := 600000000000 |} ∧
  600000000000 < 600000000001 ∧
  oauth.ValidateState S1 600000000001 service1 = (false, service0).
Proof.
  assert (oauth.states service1 !! S1 =
            Some {| oauth.Token := S1; oauth.ExpiresAt := 600000000000 |})
    as Hin by (vm_compute; reflexivity).
  assert (600000000000 < 600000000001) as Hexp by lia.
  split_and!; [exact Hin | exact Hexp |].
  destruct (ValidateState_expired S1 _ 600000000001 service1 Hin Hexp)
    as [Hret _].
  rewrite Hret. vm_compute. reflexivity.
Defined.

(** Scenario 4: with a timeout of 20, a read at 10 (extension read at 11)
    moves the expiry to 31; reads at gaps of at most 20 keep finding the
    session; a read at 32, 21 after the access at 11, does not. *)
Lemma GetSession_sliding_witness :
  auth.sessions manager1 !! id1 = Some session1 ∧
  10 ≤ auth.ExpiresAt session1 ∧
  (auth.GetSession id1 10 11 manager1).1 =
    (Some (auth.set_ExpiresAt 31 session1), true) ∧
  Forall (λ found, found = true)
    (auth.GetSession_each id1 [(29, 29); (49, 50); (70, 70)]
       (auth.GetSession id1 10 11 manager1).2).1 ∧
  (auth.GetSession id1 32 33
     (auth.run [auth.CallUpdateSession id1 data1; auth.CallCleanupTick 12]
        (auth.GetSession id1 10 11 manager1).2)).1 = (None, false).
Proof.
  assert (auth.sessions manager1 !! id1 = Some session1) as Hin
    by (vm_compute; reflexivity).
  assert (10 ≤ auth.ExpiresAt session1) as Hlive by (cbn; lia).
  destruct (GetSession_sliding id1 session1 10 11 manager1 Hin Hlive)
    as (Hget & _ & Hseq & Hgap).
  split_and!; [exact Hin | exact Hlive | | |]; rewrite Hget.
  - reflexivity.
  - apply Hseq. cbn. lia.
  - apply Hgap; [|cbn; lia]. repeat constructor; cbn; tauto.
Defined.

(** Scenario 3, the lazy expiry: at time 21 the first session is past its
    expiry of 20 and the read removes it; an id that was never issued is
    not found and the table stays as it is. *)
Lemma GetSession_expired_or_absent_witness :
  (auth.sessions manager1 !! id1 = Some session1 ∧
   auth.ExpiresAt session1 < 21 ∧
   auth.GetSession id1 21 21 manager1 = (None, false, manager0)) ∧
  (auth.sessions manager1 !! id2 = None ∧
   auth.GetSession id2 21 21 manager1 = (None, false, manager1)).
Proof.
  assert (auth.sessions manager1 !! id1 = Some session1) as Hin
    by (vm_compute; reflexivity).
  assert (auth.ExpiresAt session1 < 21) as Hexp by (cbn; lia).
  assert (auth.sessions manager1 !! id2 = None) as Hout
    by (vm_compute; reflexivity).
  destruct (GetSession_expired_or_absent id1 21 21 manager1) as [Hgone _].
  destruct (GetSession_expired_or_absent id2 21 21 manager1) as [_ Habs].
  destruct (Hgone session1 Hin Hexp) as [Hret _].
  split; split_and!;
    [exact Hin | exact Hexp | | exact Hout | exact (Habs Hout)].
  rewrite Hret. vm_compute. reflexivity.
Defined.

(** Scenario 3, the fresh session: created at time 0 for [u1], read at
    time 5. *)
Lemma CreateSession_then_GetSession_witness :
  auth.CreateSession (Ok entropy1) 0 0 "u1" "alice" "alice@example.com"
    manager0 = (Ok session1, manager1) ∧
  5 ≤ 0 + auth.timeout manager0 ∧
  ∃ (found : auth.Session string) (sm'' : auth.SessionManager string),
    auth.GetSession id1 5 6 manager1 = (Some found, true, sm'') ∧
    auth.ID found = id1 ∧
    auth.UserID found = "u1" ∧
    auth.Username found = "alice" ∧
    auth.Email found = "alice@example.com" ∧
    auth.CreatedAt found = 0 ∧
    auth.Data found = ∅.
Proof.
  assert (auth.CreateSession (Ok entropy1) 0 0 "u1" "alice"
            "alice@example.com" manager0 = (Ok session1, manager1)) as Hnew
    by (vm_compute; reflexivity).
  assert (5 ≤ 0 + auth.timeout manager0) as Hlive by (cbn; lia).
  split_and!; [exact Hnew | exact Hlive |].
  destruct (CreateSession_then_GetSession _ _ _ _ _ _ _ _ _ Hnew)
    as [_ Hget].
  exact (Hget 5 6 Hlive).
Defined.

(** Scenario 5: with sessions expiring at 20 and 35, the sweep at 25 removes
    the first and keeps the second, and the sweep at 36 empties the
    table. *)
Lemma cleanupExpiredSessions_tick_exact_witness :
  map_to_list (auth.sessions manager2) ≡ₚ map_to_list (auth.sessions manager2) ∧
  auth.sessions (auth.cleanupExpiredSessions_tick 25 manager2) !! id1 = None ∧
  auth.sessions (auth.cleanupExpiredSessions_tick 25 manager2) !! id2 =
    Some session2 ∧
  auth.sessions (auth.cleanupExpiredSessions_tick 36 manager2) = ∅.
Proof.
  assert (map_to_list (auth.sessions manager2)
            ≡ₚ map_to_list (auth.sessions manager2)) as Hperm by reflexivity.
  assert (auth.sessions manager2 !! id1 = Some session1) as Hin1
    by (vm_compute; reflexivity).
  assert (auth.sessions manager2 !! id2 = Some session2) as Hin2
    by (vm_compute; reflexivity).
  split_and!; [exact Hperm | | |].
  - destruct (cleanupExpiredSessions_tick_exact _ 25 manager2 Hperm)
      as (Hdel & _).
    apply (Hdel id1 session1 Hin1). cbn. lia.
  - destruct (cleanupExpiredSessions_tick_exact _ 25 manager2 Hperm)
      as (_ & Hkeep & _).
    apply (Hkeep id2 session2 Hin2). cbn. lia.
  - destruct (cleanupExpiredSessions_tick_exact _ 36 manager2 Hperm)
      as (_ & _ & _ & _ & Hall).
    apply Hall. intros id s Hid.
    assert (map_Forall (λ _ s, auth.ExpiresAt s < 36) (auth.sessions manager2))
      as Hbound by (refine (bool_decide_unpack _ _); vm_compute; exact I).
    exact (Hbound id s Hid).
Defined.

(** Scenario 3, the logout: deleting the first session removes it, deleting
    it again changes nothing more, and deleting an id that was never issued
    leaves the manager as it is. *)
Lemma DeleteSession_idempotent_witness :
  auth.sessions manager1 !! id2 = None ∧
  auth.DeleteSession id2 manager1 = manager1 ∧
  auth.sessions (auth.DeleteSession id1 manager1) !! id1 = None ∧
  auth.DeleteSession id1 (auth.DeleteSession id1 manager1) =
    auth.DeleteSession id1 manager1.
Proof.
  assert (auth.sessions manager1 !! id2 = None) as Hout
    by (vm_compute; reflexivity).
  destruct (DeleteSession_idempotent id2 manager1) as (_ & _ & Habs).
  destruct (DeleteSession_idempotent id1 manager1) as (Hgone & Htwice & _).
  split_and!; [exact Hout | exact (Habs Hout) | exact Hgone | exact Htwice].
Defined.

(** Merging [data2] into a session that holds [data1]: the keys of [data2]
    take its values, the key [lang] keeps its own; on an id that was never
    issued nothing changes. *)
Lemma UpdateSession_merges_witness :
  map_to_list data2 ≡ₚ map_to_list data2 ∧
  auth.sessions manager3 !! id1 = Some (auth.set_Data data1 session1) ∧
  (∃ s' : auth.Session string,
     auth.sessions (auth.UpdateSession id1 data2 manager3) !! id1 = Some s' ∧
     auth.Data s' !! "theme" = Some "light" ∧
     auth.Data s' !! "tz" = Some "UTC" ∧
     auth.Data s' !! "lang" = Some "en") ∧
  auth.sessions manager3 !! "never-issued" = None ∧
  auth.UpdateSession "never-issued" data2 manager3 = manager3.
Proof.
  assert (map_to_list data2 ≡ₚ map_to_list data2) as Hperm by reflexivity.
  assert (auth.sessions manager3 !! id1 = Some (auth.set_Data data1 session1))
    as Hin by (vm_compute; reflexivity).
  assert (auth.sessions manager3 !! "never-issued" = None) as Hout
    by (vm_compute; reflexivity).
  split_and!; [exact Hperm | exact Hin | | exact Hout |].
  - destruct (UpdateSession_merges _ id1 data2 manager3 Hperm) as [Hmerge _].
    destruct (Hmerge _ Hin) as (s' & Hs' & Hset & Hkeep).
    exists s'. split_and!; [exact Hs' | | |].
    + apply Hset. vm_compute. reflexivity.
    + apply Hset. vm_compute. reflexivity.
    + rewrite Hkeep; vm_compute; reflexivity.
  - destruct (UpdateSession_merges _ "never-issued" data2 manager3 Hperm)
      as [_ Habs].
    exact (Habs Hout).
Defined.

(** At time 21 the first session of [manager2] is past its expiry of 20 and
    a read would not find it, yet [UpdateSession] still stores [data1] in
    it, and leaves its other fields and the second session as they are. *)
Lemma UpdateSession_frame_witness :
  map_to_list data1 ≡ₚ map_to_list data1 ∧
  auth.sessions manager2 !! id1 = Some session1 ∧
  auth.ExpiresAt session1 < 21 ∧
  (auth.GetSession id1 21 21 manager2).1 = (None, false) ∧
  auth.sessions (auth.UpdateSession id1 data1 manager2) !! id1 =
    Some (auth.set_Data data1 session1) ∧
  auth.sessions (auth.UpdateSession id1 data1 manager2) !! id2 =
    Some session2.
Proof.
  assert (map_to_list data1 ≡ₚ map_to_list data1) as Hperm by reflexivity.
  assert (auth.sessions manager2 !! id1 = Some session1) as Hin
    by (vm_compute; reflexivity).
  assert (auth.ExpiresAt session1 < 21) as Hexp by (cbn; lia).
  destruct (UpdateSession_frame _ id1 data1 session1 manager2 Hperm Hin)
    as (_ & Hother & _ & Hstale).
  destruct (Hstale 21 21 Hexp) as [Hnot Hmerged].
  split_and!; [exact Hperm | exact Hin | exact Hexp | exact Hnot | |].
  - unfold auth.UpdateSession. rewrite Hmerged. vm_compute. reflexivity.
  - unfold auth.UpdateSession. rewrite Hother; [|vm_compute; discriminate].
    vm_compute. reflexivity.
Defined.

(** A request that carries a session cookie is rejected all the same. *)
Example RequireAuth_rejects_cookie :
  middleware.Aborted
    (middleware.RequireAuth (λ msg, msg)
       (middleware.Set_ "user_id" "u1")
       {| middleware.Request_ := request1; middleware.Keys := ∅;
          middleware.Written := []; middleware.Aborted := false |}) = true.
Proof. reflexivity. Qed.

End scenarios.

(** * Part III: further properties of the code *)

(** ** The OAuth state registry: issue, validation and the reaper *)

Section oauth_lifecycle.
Import oauth.
Variable AuthCodeURL : Config → string → string.

Local Abbreviation GetAuthURL := (oauth.GetAuthURL AuthCodeURL).
Local Abbreviation step := (oauth.step AuthCodeURL).
Local Abbreviation run := (oauth.run AuthCodeURL).

Lemma oauth_run_snoc cs c s : run (cs ++ [c]) s = step c (run cs s).
Proof. unfold oauth.run. by rewrite foldl_snoc. Qed.

(** A call that leaves [t] alone keeps its entry, or drops it in a sweep
    when it has expired. *)
Lemma oauth_step_quiet t st now c s :
  quiet t now c →
  states s !! t = Some st ∨ (states s !! t = None ∧ ExpiresAt st < now) →
  states (step c s) !! t = Some st ∨
  (states (step c s) !! t = None ∧ ExpiresAt st < now).
Proof.
  intros Hq Hinv. destruct c as [[b|err] n|state n|n]; cbn in Hq |- *.
  - by rewrite lookup_insert_ne.
  - done.
  - unfold ValidateState. destruct (states s !! state) as [st'|]; [|done].
    destruct (time.After n (ExpiresAt st')); cbn;
      by rewrite lookup_delete_ne.
  - rewrite range_delete_lookup by done.
    destruct Hinv as [->|[-> Hexp]]; [|by right].
    destruct (time.After n (ExpiresAt st)) eqn:Hn; [|by left].
    right. split; [done|]. apply After_true in Hn. lia.
Qed.

Lemma oauth_run_quiet t st now cs : ∀ s,
  Forall (quiet t now) cs →
  states s !! t = Some st ∨ (states s !! t = None ∧ ExpiresAt st < now) →
  states (run cs s) !! t = Some st ∨
  (states (run cs s) !! t = None ∧ ExpiresAt st < now).
Proof.
  induction cs as [|c cs IH]; intros s Hcs Hinv; [done|].
  apply Forall_cons in Hcs as [Hc Hcs]. cbn.
  apply IH; [done|]. by apply oauth_step_quiet.
Qed.

(** X1: a token issued at [now0] and left alone since (no validation and no
    re-issue of it, sweeps no later than [now]) validates at [now] exactly
    when [now] is at most ten minutes after [now0]. *)
Theorem GetAuthURL_then_ValidateState (b : list Byte.byte) (now0 now : Z)
    (s : OAuthService) (cs : list call) :
  Forall (quiet (base64.EncodeToString b) now) cs →
  (ValidateState (base64.EncodeToString b) now
     (run cs (GetAuthURL (Ok b) now0 s).2)).1 =
    bool_decide (now ≤ now0 + 10 * time.Minute).
Proof.
  intros Hcs.
  set (t := base64.EncodeToString b) in *.
  set (st := {| Token := t; ExpiresAt := now0 + 10 * time.Minute |}).
  destruct (oauth_run_quiet t st now cs (GetAuthURL (Ok b) now0 s).2 Hcs)
    as [Hin|[Hout Hexp]].
  { left. cbn. apply lookup_insert_eq. }
  - unfold ValidateState. rewrite Hin.
    destruct (time.After now (ExpiresAt st)) eqn:Hnow; cbn.
    + apply After_true in Hnow. cbn in Hnow.
      by rewrite bool_decide_eq_false_2 by lia.
    + apply After_false in Hnow. cbn in Hnow.
      by rewrite bool_decide_eq_true_2 by lia.
  - rewrite ValidateState_absent by done. cbn in Hexp |- *.
    by rewrite bool_decide_eq_false_2 by lia.
Qed.

(** X2: one sweep of the state reaper keeps exactly the tokens that are not
    past their expiry, in whatever order it visits the registry, and leaves
    the configuration alone. *)
Theorem cleanupExpiredStates_tick_exact (order : list (string * OAuthState))
    (now : Z) (s : OAuthService) :
  order ≡ₚ map_to_list (states s) →
  (∀ t st,
     states (cleanupExpiredStates_tick_in order now s) !! t = Some st ↔
     states s !! t = Some st ∧ now ≤ ExpiresAt st) ∧
  config (cleanupExpiredStates_tick_in order now s) = config s.
Proof.
  intros Hperm. split; [|done]. intros t st. cbn.
  rewrite range_delete_lookup by done.
  destruct (states s !! t) as [st'|]; [|split; [done|by intros [? _]]].
  destruct (time.After now (ExpiresAt st')) eqn:Hnow.
  - apply After_true in Hnow. split; [done|]. intros [[= ->] ?]. lia.
  - apply After_false in Hnow. split.
    + by intros [= ->].
    + by intros [[= ->] _].
Qed.

Lemma cleanupExpiredStates_tick_tick n1 n2 s :
  cleanupExpiredStates_tick n2 (cleanupExpiredStates_tick n1 s) =
  cleanupExpiredStates_tick (Z.max n1 n2) s.
Proof.
  unfold cleanupExpiredStates_tick at 1 3.
  unfold cleanupExpiredStates_tick_in. f_equal. apply map_eq. intros k.
  rewrite !range_delete_lookup by done.
  rewrite cleanupExpiredStates_tick_lookup.
  destruct (states s !! k) as [st|]; [|done].
  destruct (time.After n1 (ExpiresAt st)) eqn:H1;
    destruct (time.After n2 (ExpiresAt st)) eqn:H2;
    destruct (time.After (Z.max n1 n2) (ExpiresAt st)) eqn:H3;
    rewrite ?After_true, ?After_false in *; (done || lia).
Qed.

(** X3: the reaper loop over any ticks leaves the registry that a single
    sweep at the latest tick leaves. *)
Theorem cleanupExpiredStates_latest (n : Z) (ticks : list Z)
    (s : OAuthService) :
  cleanupExpiredStates (n :: ticks) s =
  cleanupExpiredStates_tick (foldl Z.max n ticks) s.
Proof.
  revert n s. induction ticks as [|n' ticks IH]; intros n s; [done|].
  change (cleanupExpiredStates (n :: n' :: ticks) s)
    with (cleanupExpiredStates ticks
            (cleanupExpiredStates_tick n' (cleanupExpiredStates_tick n s))).
  rewrite cleanupExpiredStates_tick_tick.
  change (cleanupExpiredStates ticks
            (cleanupExpiredStates_tick (Z.max n n') s))
    with (cleanupExpiredStates (Z.max n n' :: ticks) s).
  by rewrite IH.
Qed.

Lemma oauth_service_eq (s1 s2 : OAuthService) :
  config s1 = config s2 →
  (∀ k, states s1 !! k = states s2 !! k) →
  s1 = s2.
Proof.
  destruct s1 as [c1 m1], s2 as [c2 m2]. cbn. intros -> Hm.
  f_equal. by apply map_eq.
Qed.

(** Deleting a token and sweeping commute. *)
Lemma cleanupExpiredStates_tick_delete t n s :
  {| config := config s;
     states := delete t (states (cleanupExpiredStates_tick n s)) |} =
  cleanupExpiredStates_tick n
    {| config := config s; states := delete t (states s) |}.
Proof.
  apply oauth_service_eq; [done|]. intros k.
  rewrite cleanupExpiredStates_tick_lookup. cbn [states].
  destruct (decide (t = k)) as [->|Hne].
  - by rewrite !lookup_delete_eq.
  - rewrite !lookup_delete_ne by done.
    by rewrite cleanupExpiredStates_tick_lookup.
Qed.

(** X4: a sweep that ran no later than a validation does not change its
    answer, and sweeping before or after the validation leaves the same
    registry. *)
Theorem ValidateState_after_cleanup (t : string) (n now : Z)
    (s : OAuthService) :
  n ≤ now →
  ValidateState t now (cleanupExpiredStates_tick n s) =
    ((ValidateState t now s).1,
     cleanupExpiredStates_tick n (ValidateState t now s).2).
Proof.
  intros Hn. unfold ValidateState at 1.
  rewrite cleanupExpiredStates_tick_lookup.
  unfold ValidateState.
  destruct (states s !! t) as [st|] eqn:Ht; [|done].
  destruct (time.After n (ExpiresAt st)) eqn:Hsweep.
  - assert (time.After now (ExpiresAt st) = true) as ->.
    { apply After_true in Hsweep. apply After_true. lia. }
    cbn. f_equal. rewrite <- cleanupExpiredStates_tick_delete.
    apply oauth_service_eq; [done|]. intros k. cbn [states].
    destruct (decide (t = k)) as [->|Hne].
    + rewrite lookup_delete_eq, cleanupExpiredStates_tick_lookup, Ht.
      by rewrite Hsweep.
    + by rewrite lookup_delete_ne.
  - destruct (time.After now (ExpiresAt st)); cbn; f_equal;
      apply cleanupExpiredStates_tick_delete.
Qed.

(** Every entry of a registry that started empty was put there by a
    [GetAuthURL] of the history, under its own token, for ten minutes. *)
Lemma oauth_registry_issued Getenv cs : ∀ k st,
  states (run cs (NewOAuthService Getenv)) !! k = Some st →
  Token st = k ∧
  ∃ b now0, CallGetAuthURL (Ok b) now0 ∈ cs ∧
            k = base64.EncodeToString b ∧
            ExpiresAt st = now0 + 10 * time.Minute.
Proof.
  induction cs as [|c cs IH] using rev_ind; intros k st.
  - cbn. by rewrite lookup_empty.
  - rewrite oauth_run_snoc.
    assert (states (run cs (NewOAuthService Getenv)) !! k = Some st →
            Token st = k ∧
            ∃ b now0, CallGetAuthURL (Ok b) now0 ∈ cs ++ [c] ∧
                      k = base64.EncodeToString b ∧
                      ExpiresAt st = now0 + 10 * time.Minute) as IH'.
    { intros Hk. destruct (IH k st Hk) as (HT & b & now0 & Hin & Hb & He).
      split; [done|]. exists b, now0. split; [|done].
      apply elem_of_app. by left. }
    destruct c as [[b|err] n|state n|n]; cbn.
    + intros [[<- <-]|[_ Hk]]%lookup_insert_Some; [|by apply IH'].
      split; [done|]. exists b, n. split; [|done].
      apply elem_of_app. right. by apply list_elem_of_singleton.
    + apply IH'.
    + unfold ValidateState.
      destruct (states (run cs _) !! state) as [st'|]; [|apply IH'].
      destruct (time.After n (ExpiresAt st')); cbn;
        intros [_ Hk]%lookup_delete_Some; by apply IH'.
    + rewrite range_delete_lookup by done.
      destruct (states (run cs _) !! k) as [st'|] eqn:Hk; [|done].
      destruct (time.After n (ExpiresAt st')); [done|].
      intros [= <-]. by apply IH'.
Qed.

(** X5: in a service that started with an empty registry, [ValidateState]
    answers [true] only for a token that a [GetAuthURL] of the history
    generated, and only up to ten minutes after that call. *)
Theorem ValidateState_true_issued (Getenv : string → string)
    (cs : list call) (t : string) (now : Z) (s' : OAuthService) :
  ValidateState t now (run cs (NewOAuthService Getenv)) = (true, s') →
  ∃ (b : list Byte.byte) (now0 : Z),
    CallGetAuthURL (Ok b) now0 ∈ cs ∧
    t = base64.EncodeToString b ∧
    now ≤ now0 + 10 * time.Minute.
Proof.
  unfold ValidateState.
  destruct (states (run cs (NewOAuthService Getenv)) !! t) as [st|] eqn:Ht;
    [|done].
  destruct (time.After now (ExpiresAt st)) eqn:Hnow; [done|]. intros _.
  destruct (oauth_registry_issued Getenv cs t st Ht)
    as (_ & b & now0 & Hin & Hb & He).
  exists b, now0. split_and!; [done..|].
  apply After_false in Hnow. lia.
Qed.

End oauth_lifecycle.

(** ** The session manager: histories, the reaper and composed calls *)

Section auth_lifecycle.
Import auth.
Context {Value : Type}.
Implicit Types (sm : SessionManager Value) (s session : Session Value).
Implicit Types (id : string) (data : gmap string Value).

Lemma auth_run_snoc (cs : list (call Value)) c sm :
  run (cs ++ [c]) sm = step c (run cs sm).
Proof. unfold run. by rewrite foldl_snoc. Qed.

Lemma session_manager_eq sm1 sm2 :
  timeout sm1 = timeout sm2 →
  (∀ k, sessions sm1 !! k = sessions sm2 !! k) →
  sm1 = sm2.
Proof.
  destruct sm1 as [m1 t1], sm2 as [m2 t2]. cbn. intros -> Hm.
  f_equal. by apply map_eq.
Qed.

Lemma auth_step_timeout (c : call Value) sm :
  timeout (step c sm) = timeout sm.
Proof.
  destruct c as [[bytes|err] now1 now2 userID username email
                |id now1 now2|id|id data|now]; cbn; try done.
  - unfold GetSession. destruct (sessions sm !! id) as [s|]; [|done].
    by destruct (time.After now1 (ExpiresAt s)).
  - unfold UpdateSession, UpdateSession_in.
    by destruct (sessions sm !! id).
Qed.

Lemma cleanupExpiredSessions_tick_lookup now sm id :
  sessions (cleanupExpiredSessions_tick now sm) !! id =
    match sessions sm !! id with
    | Some s => if time.After now (ExpiresAt s) then None else Some s
    | None => None
    end.
Proof. by apply cleanupExpiredSessions_tick_in_lookup. Qed.

(** Every session of a manager that started empty was made by a
    [CreateSession] of the history and still carries what that call gave
    it. *)
Lemma auth_sessions_created (timeout0 : Z) (cs : list (call Value)) :
  ∀ id s,
  sessions (run cs (NewSessionManager Value timeout0)) !! id = Some s →
  ID s = id ∧
  ∃ bytes now1 now2,
    CallCreateSession (Ok bytes) now1 now2 (UserID s) (Username s) (Email s)
      ∈ cs ∧
    id = hex.EncodeToString bytes ∧
    CreatedAt s = now1.
Proof.
  induction cs as [|c cs IH] using rev_ind; intros id s.
  - cbn. by rewrite lookup_empty.
  - rewrite auth_run_snoc.
    set (sm := run cs (NewSessionManager Value timeout0)) in *.
    assert (∀ s0, ID s0 = ID s → UserID s0 = UserID s →
              Username s0 = Username s → Email s0 = Email s →
              CreatedAt s0 = CreatedAt s →
              sessions sm !! id = Some s0 →
              ID s = id ∧
              ∃ bytes now1 now2,
                CallCreateSession (Ok bytes) now1 now2
                  (UserID s) (Username s) (Email s) ∈ cs ++ [c] ∧
                id = hex.EncodeToString bytes ∧
                CreatedAt s = now1) as IH'.
    { intros s0 H1 H2 H3 H4 H5 Hid.
      destruct (IH id s0 Hid) as (Hkey & bytes & now1 & now2 & Hin & Hb & Hc).
      split; [congruence|]. exists bytes, now1, now2.
      rewrite <- H2, <- H3, <- H4, <- H5. split; [|done].
      apply elem_of_app. by left. }
    destruct c as [[bytes|err] now1 now2 userID username email
                  |id' now1 now2|id'|id' data|now]; cbn.
    + intros [[<- <-]|[_ Hid]]%lookup_insert_Some; [|by apply (IH' s)].
      split; [done|]. exists bytes, now1, now2. split; [|done].
      apply elem_of_app. right. by apply list_elem_of_singleton.
    + by apply (IH' s).
    + unfold GetSession.
      destruct (sessions sm !! id') as [s'|] eqn:Hid'; [|by apply (IH' s)].
      destruct (time.After now1 (ExpiresAt s')); cbn.
      * intros [_ Hid]%lookup_delete_Some. by apply (IH' s).
      * intros [[<- <-]|[_ Hid]]%lookup_insert_Some; [|by apply (IH' s)].
        by apply (IH' s').
    + intros [_ Hid]%lookup_delete_Some. by apply (IH' s).
    + unfold UpdateSession, UpdateSession_in.
      destruct (sessions sm !! id') as [s'|] eqn:Hid'; [|by apply (IH' s)].
      cbn. intros [[<- <-]|[_ Hid]]%lookup_insert_Some; [|by apply (IH' s)].
      by apply (IH' s').
    + rewrite range_delete_lookup by done.
      destruct (sessions sm !! id) as [s'|] eqn:Hid; [|done].
      destruct (time.After now (ExpiresAt s')); [done|].
      intros [= <-]. by apply (IH' s').
Qed.

(** X6: in a manager that started empty, a session that [GetSession] finds
    under an id was created under that id by a [CreateSession] of the
    history, and its user id, user name, email and creation time are the
    ones of that call. *)
Theorem GetSession_found_created (timeout0 : Z) (cs : list (call Value))
    (id : string) (now1 now2 : Z) (found : Session Value)
    (sm' : SessionManager Value) :
  GetSession id now1 now2 (run cs (NewSessionManager Value timeout0)) =
    (Some found, true, sm') →
  ID found = id ∧
  ∃ (bytes : list Byte.byte) (created expiry_read : Z),
    CallCreateSession (Ok bytes) created expiry_read
      (UserID found) (Username found) (Email found) ∈ cs ∧
    id = hex.EncodeToString bytes ∧
    CreatedAt found = created.
Proof.
  unfold GetSession.
  destruct (sessions (run cs (NewSessionManager Value timeout0)) !! id)
    as [s|] eqn:Hid; [|done].
  destruct (time.After now1 (ExpiresAt s)); [done|]. intros [= <- _].
  exact (auth_sessions_created timeout0 cs id s Hid).
Qed.

(** X7: a sweep that ran no later than a read does not change what the
    read returns for the session it asks for. *)
Theorem GetSession_after_cleanup (id : string) (n now1 now2 : Z)
    (sm : SessionManager Value) :
  n ≤ now1 →
  (GetSession id now1 now2 (cleanupExpiredSessions_tick n sm)).1 =
  (GetSession id now1 now2 sm).1.
Proof.
  intros Hn. unfold GetSession.
  rewrite cleanupExpiredSessions_tick_lookup.
  destruct (sessions sm !! id) as [s|]; [|done].
  destruct (time.After n (ExpiresAt s)) eqn:Hsweep.
  - assert (time.After now1 (ExpiresAt s) = true) as ->; [|done].
    apply After_true in Hsweep. apply After_true. lia.
  - by destruct (time.After now1 (ExpiresAt s)).
Qed.

Lemma cleanupExpiredSessions_tick_tick n1 n2 sm :
  cleanupExpiredSessions_tick n2 (cleanupExpiredSessions_tick n1 sm) =
  cleanupExpiredSessions_tick (Z.max n1 n2) sm.
Proof.
  apply session_manager_eq; [done|]. intros k.
  rewrite !cleanupExpiredSessions_tick_lookup.
  destruct (sessions sm !! k) as [s|]; [|done].
  destruct (time.After n1 (ExpiresAt s)) eqn:H1;
    destruct (time.After n2 (ExpiresAt s)) eqn:H2;
    destruct (time.After (Z.max n1 n2) (ExpiresAt s)) eqn:H3;
    rewrite ?After_true, ?After_false in *; (done || lia).
Qed.

(** X8: the session reaper loop over any ticks leaves the table that a
    single sweep at the latest tick leaves. *)
Theorem cleanupExpiredSessions_latest (n : Z) (ticks : list Z)
    (sm : SessionManager Value) :
  cleanupExpiredSessions (n :: ticks) sm =
  cleanupExpiredSessions_tick (foldl Z.max n ticks) sm.
Proof.
  revert n sm. induction ticks as [|n' ticks IH]; intros n sm; [done|].
  change (cleanupExpiredSessions (n :: n' :: ticks) sm)
    with (cleanupExpiredSessions ticks
            (cleanupExpiredSessions_tick n'
               (cleanupExpiredSessions_tick n sm))).
  rewrite cleanupExpiredSessions_tick_tick.
  change (cleanupExpiredSessions ticks
            (cleanupExpiredSessions_tick (Z.max n n') sm))
    with (cleanupExpiredSessions (Z.max n n' :: ticks) sm).
  by rewrite IH.
Qed.

Lemma UpdateSession_present id data s sm :
  sessions sm !! id = Some s →
  UpdateSession id data sm =
    set_sessions (<[id := set_Data (data ∪ Data s) s]> (sessions sm)) sm.
Proof. intros Hid. by apply UpdateSession_in_present. Qed.

Lemma UpdateSession_absent id data sm :
  sessions sm !! id = None → UpdateSession id data sm = sm.
Proof. intros Hid. by apply UpdateSession_in_absent. Qed.

(** X9: two updates of a session in a row are one update with the second
    map laid over the first, and an update with the empty map changes
    nothing. *)
Theorem UpdateSession_compose (id : string) (d1 d2 : gmap string Value)
    (sm : SessionManager Value) :
  UpdateSession id d2 (UpdateSession id d1 sm) =
    UpdateSession id (d2 ∪ d1) sm ∧
  UpdateSession id ∅ sm = sm.
Proof.
  destruct (sessions sm !! id) as [s|] eqn:Hid.
  - split.
    + rewrite (UpdateSession_present id d1 s sm) by done.
      rewrite (UpdateSession_present id (d2 ∪ d1) s sm) by done.
      erewrite UpdateSession_present by apply lookup_insert_eq.
      unfold set_sessions, set_Data. cbn.
      by rewrite insert_insert_eq, (assoc_L (∪)).
    + rewrite (UpdateSession_present id ∅ s sm) by done.
      rewrite (left_id_L ∅ (∪)).
      apply session_manager_eq; [done|]. intros k. cbn.
      destruct (decide (id = k)) as [<-|Hne].
      * rewrite lookup_insert_eq, Hid. by destruct s.
      * by rewrite lookup_insert_ne.
  - rewrite (UpdateSession_absent id d1 sm) by done.
    by rewrite !UpdateSession_absent by done.
Qed.

(** X10: updating a session and reading it commute: both orders leave the
    same manager and give the same [found], and a read that finds the
    session after the update returns the merged data with the refreshed
    expiry. *)
Theorem UpdateSession_GetSession_commute (id : string)
    (data : gmap string Value) (now1 now2 : Z) (sm : SessionManager Value) :
  (GetSession id now1 now2 (UpdateSession id data sm)).2 =
    UpdateSession id data (GetSession id now1 now2 sm).2 ∧
  (GetSession id now1 now2 (UpdateSession id data sm)).1.2 =
    (GetSession id now1 now2 sm).1.2 ∧
  ∀ s, sessions sm !! id = Some s → now1 ≤ ExpiresAt s →
       (GetSession id now1 now2 (UpdateSession id data sm)).1.1 =
         Some (set_ExpiresAt (now2 + timeout sm)
                 (set_Data (data ∪ Data s) s)).
Proof.
  destruct (sessions sm !! id) as [s|] eqn:Hid.
  - rewrite (UpdateSession_present id data s sm) by done.
    destruct (Z_lt_le_dec (ExpiresAt s) now1) as [Hexp|Hlive].
    + rewrite (GetSession_expired id s now1 now2 sm) by done.
      erewrite GetSession_expired;
        [|apply lookup_insert_eq|done].
      cbn. split_and!; [|done|intros s' [= <-]; lia].
      rewrite UpdateSession_absent by apply lookup_delete_eq.
      unfold set_sessions. cbn. by rewrite delete_insert_eq.
    + rewrite (GetSession_live id s now1 now2 sm) by done.
      erewrite GetSession_live; [|apply lookup_insert_eq|done].
      cbn. split_and!; [|done|by intros s' [= <-]].
      erewrite UpdateSession_present by apply lookup_insert_eq.
      unfold set_sessions. cbn. by rewrite !insert_insert_eq.
  - rewrite UpdateSession_absent by done.
    rewrite GetSession_absent by done. cbn.
    rewrite UpdateSession_absent by done. done.
Qed.

(** A session that is not in the table stays out of it unless a call
    creates it. *)
Lemma auth_step_absent id (c : call Value) sm :
  ¬ creates id c → sessions sm !! id = None →
  sessions (step c sm) !! id = None.
Proof.
  intros Hc Hid.
  destruct c as [[bytes|err] now1 now2 userID username email
                |id' now1 now2|id'|id' data|now]; cbn in Hc |- *.
  - by rewrite lookup_insert_ne.
  - done.
  - unfold GetSession.
    destruct (sessions sm !! id') as [s'|] eqn:Hid'; [|done].
    assert (id' ≠ id) by congruence.
    destruct (time.After now1 (ExpiresAt s')); cbn.
    + by rewrite lookup_delete_ne.
    + by rewrite lookup_insert_ne.
  - destruct (decide (id' = id)) as [->|Hne].
    + apply lookup_delete_eq.
    + by rewrite lookup_delete_ne.
  - unfold UpdateSession, UpdateSession_in.
    destruct (sessions sm !! id') as [s'|] eqn:Hid'; [|done].
    assert (id' ≠ id) by congruence. cbn. by rewrite lookup_insert_ne.
  - by apply range_delete_absent.
Qed.

Lemma auth_run_absent id (cs : list (call Value)) : ∀ sm,
  Forall (λ c, ¬ creates id c) cs → sessions sm !! id = None →
  sessions (run cs sm) !! id = None.
Proof.
  induction cs as [|c cs IH]; intros sm Hcs Hid; [done|].
  apply Forall_cons in Hcs as [Hc Hcs]. cbn.
  apply IH; [done|]. by apply auth_step_absent.
Qed.

(** X11: a deleted session does not come back: after [DeleteSession] and
    any further calls that do not create a session under the same id,
    [GetSession] does not find it. *)
Theorem DeleteSession_permanent (id : string) (cs : list (call Value))
    (now1 now2 : Z) (sm : SessionManager Value) :
  Forall (λ c, ¬ creates id c) cs →
  GetSession id now1 now2 (run cs (DeleteSession id sm)) =
    (None, false, run cs (DeleteSession id sm)).
Proof.
  intros Hcs. apply GetSession_absent, auth_run_absent; [done|].
  apply lookup_delete_eq.
Qed.

Lemma auth_step_size (c : call Value) sm :
  (size (sessions (step c sm)) ≤
   size (sessions sm) + (if is_creation c then 1 else 0))%nat.
Proof.
  assert (∀ k (x : Session Value) (m : gmap string (Session Value)),
            (size (<[k := x]> m) ≤ size m + 1)%nat) as Hins.
  { intros k x m. rewrite map_size_insert.
    destruct (m !! k); cbn; lia. }
  assert (∀ k (m : gmap string (Session Value)),
            (size (delete k m) ≤ size m)%nat) as Hdel.
  { intros k m. rewrite map_size_delete.
    destruct (m !! k); cbn; lia. }
  destruct c as [[bytes|err] now1 now2 userID username email
                |id now1 now2|id|id data|now]; cbn.
  - apply Hins.
  - lia.
  - unfold GetSession. destruct (sessions sm !! id) as [s|] eqn:Hid;
      [|cbn; lia].
    destruct (time.After now1 (ExpiresAt s)); cbn.
    + pose proof (Hdel id (sessions sm)). lia.
    + rewrite map_size_insert_Some by (by rewrite Hid). lia.
  - pose proof (Hdel id (sessions sm)). lia.
  - unfold UpdateSession, UpdateSession_in.
    destruct (sessions sm !! id) as [s|] eqn:Hid; [|cbn; lia].
    cbn. rewrite map_size_insert_Some by (by rewrite Hid). lia.
  - rewrite Nat.add_0_r. apply map_subseteq_size, map_subseteq_spec.
    intros k x. rewrite range_delete_lookup by done.
    destruct (sessions sm !! k) as [s|]; [|done].
    by destruct (time.After now (ExpiresAt s)).
Qed.

(** X12: the table grows only through [CreateSession]: after any calls it
    holds at most as many sessions more than before as there were
    successful creations among the calls. *)
Theorem sessions_size_bound (cs : list (call Value))
    (sm : SessionManager Value) :
  (size (sessions (run cs sm)) ≤
   size (sessions sm) + length (filter (λ c, is_creation c = true) cs))%nat.
Proof.
  revert sm. induction cs as [|c cs IH]; intros sm; [cbn; lia|].
  cbn [run foldl]. change (foldl _ (step c sm) cs) with (run cs (step c sm)).
  pose proof (IH (step c sm)) as Hrest.
  pose proof (auth_step_size c sm) as Hstep.
  rewrite filter_cons. destruct (is_creation c) eqn:Hc.
  - rewrite decide_True by done. cbn [length]. lia.
  - rewrite decide_False by done. lia.
Qed.

End auth_lifecycle.

(** ** The in-memory user repository *)

Section user_repository.
Import errors memory.
Implicit Types (r : UserRepository) (user u : User).
Implicit Types (order : list (string * User)).

Lemma Create_scan_None user order :
  Create_scan user order = None ↔
  ∀ id u, (id, u) ∈ order →
          Username u ≠ Username user ∧ Email u ≠ Email user.
Proof.
  induction order as [|[id' u'] order IH]; cbn.
  - split; [|done]. intros _ id u Hin. by apply elem_of_nil in Hin.
  - destruct (decide (Username u' = Username user)) as [Hn|Hn].
    { split; [done|]. intros Hall.
      destruct (Hall id' u') as [Hne _]; [by left|done]. }
    destruct (decide (Email u' = Email user)) as [He|He].
    { split; [done|]. intros Hall.
      destruct (Hall id' u') as [_ Hne]; [by left|done]. }
    rewrite IH. split.
    + intros Hall id u [[= -> ->]|Hin]%elem_of_cons; [done|by eapply Hall].
    + intros Hall id u Hin. eapply Hall. by right.
Qed.

Lemma Create_scan_Some user order err :
  Create_scan user order = Some err →
  err = NewConflictError "username already taken" ∨
  err = NewConflictError "email already taken".
Proof.
  induction order as [|[id' u'] order IH]; cbn; [done|].
  destruct (decide (Username u' = Username user)); [intros [= <-]; by left|].
  destruct (decide (Email u' = Email user)); [intros [= <-]; by right|].
  done.
Qed.

Lemma Update_scan_None user order :
  Update_scan user order = None ↔
  ∀ id u, (id, u) ∈ order → id ≠ ID user →
          Username u ≠ Username user ∧ Email u ≠ Email user.
Proof.
  induction order as [|[id' u'] order IH]; cbn.
  - split; [|done]. intros _ id u Hin. by apply elem_of_nil in Hin.
  - destruct (decide (id' ≠ ID user)) as [Hid|Hid].
    + destruct (decide (Username u' = Username user)) as [Hn|Hn].
      { split; [done|]. intros Hall.
        destruct (Hall id' u') as [Hne _]; [by left|done..]. }
      destruct (decide (Email u' = Email user)) as [He|He].
      { split; [done|]. intros Hall.
        destruct (Hall id' u') as [_ Hne]; [by left|done..]. }
      rewrite IH. split.
      * intros Hall id u [[= -> ->]|Hin]%elem_of_cons ?;
          [done|by eapply Hall].
      * intros Hall id u Hin. eapply Hall. by right.
    + rewrite IH. split.
      * intros Hall id u [[= -> ->]|Hin]%elem_of_cons ?;
          [done|by eapply Hall].
      * intros Hall id u Hin. eapply Hall. by right.
Qed.

(** X13: [Create] succeeds exactly when the id is free and no stored user
    has the new user's name or email, in whatever order it visits the
    users; then it stores the user and leaves the favorites alone.  When it
    fails the repository is as before and the error is a conflict
    (409). *)
Theorem Create_succeeds_iff (order : list (string * User)) (user : User)
    (r : UserRepository) :
  order ≡ₚ map_to_list (users r) →
  ((Create_in order user r).1 = None ↔
   users r !! ID user = None ∧
   ∀ id u, users r !! id = Some u →
           Username u ≠ Username user ∧ Email u ≠ Email user) ∧
  ((Create_in order user r).1 = None →
   (Create_in order user r).2 =
     {| users := <[ID user := user]> (users r);
        favorites := favorites r |}) ∧
  (∀ err, (Create_in order user r).1 = Some err →
          (Create_in order user r).2 = r ∧
          Code err = ErrCodeConflict ∧ StatusCode err = StatusConflict).
Proof.
  intros Hperm.
  assert (Create_scan user order = None ↔
          ∀ id u, users r !! id = Some u →
                  Username u ≠ Username user ∧ Email u ≠ Email user)
    as Hscan.
  { rewrite Create_scan_None. split; intros Hall id u Hin.
    - apply (Hall id). rewrite Hperm. by apply elem_of_map_to_list.
    - apply (Hall id). rewrite Hperm in Hin.
      by apply elem_of_map_to_list in Hin. }
  unfold Create_in.
  destruct (users r !! ID user) as [old|] eqn:Hid.
  - cbn. split_and!.
    + split; [done|]. by intros [? _].
    + done.
    + by intros err [= <-].
  - destruct (Create_scan user order) as [err|] eqn:Hs; cbn.
    + split_and!.
      * split; [done|]. intros [_ Hall]. apply Hscan in Hall. done.
      * done.
      * intros err' [= <-]. split; [done|].
        by destruct (Create_scan_Some user order err Hs) as [->| ->].
    + split_and!; [|done|done]. split; [|done]. intros _.
      split; [done|]. by apply Hscan.
Qed.

Lemma repository_step_unique (c : call) r : unique r → unique (step c r).
Proof.
  intros [Hkey Huniq].
  destruct c as [user|user|id|userID templateID|userID templateID]; cbn.
  - (* Create *)
    unfold Create, Create_in.
    destruct (users r !! ID user) as [old|] eqn:Hid; [done|].
    destruct (Create_scan user _) as [err|] eqn:Hs; [done|].
    unfold unique. cbn.
    assert (∀ id u, users r !! id = Some u →
                    Username u ≠ Username user ∧ Email u ≠ Email user)
      as Hfree.
    { intros id u Hin. eapply Create_scan_None; [exact Hs|].
      by apply elem_of_map_to_list. }
    split.
    + intros id u [[<- <-]|[_ Hin]]%lookup_insert_Some; [done|by eapply Hkey].
    + intros id1 id2 u1 u2
        [[<- <-]|[Hne1 Hin1]]%lookup_insert_Some
        [[<- <-]|[Hne2 Hin2]]%lookup_insert_Some Hne; cbn.
      * done.
      * destruct (Hfree id2 u2 Hin2). split; congruence.
      * by destruct (Hfree id1 u1 Hin1).
      * by eapply Huniq.
  - (* Update *)
    unfold Update, Update_in.
    destruct (users r !! ID user) as [old|] eqn:Hid; [|done].
    destruct (Update_scan user _) as [err|] eqn:Hs; [done|].
    unfold unique. cbn.
    assert (∀ id u, users r !! id = Some u → id ≠ ID user →
                    Username u ≠ Username user ∧ Email u ≠ Email user)
      as Hfree.
    { intros id u Hin Hne. eapply Update_scan_None; [exact Hs| |done].
      by apply elem_of_map_to_list. }
    split.
    + intros id u [[<- <-]|[_ Hin]]%lookup_insert_Some; [done|by eapply Hkey].
    + intros id1 id2 u1 u2
        [[<- <-]|[Hne1 Hin1]]%lookup_insert_Some
        [[<- <-]|[Hne2 Hin2]]%lookup_insert_Some Hne; cbn.
      * done.
      * destruct (Hfree id2 u2 Hin2); [done|]. split; congruence.
      * by destruct (Hfree id1 u1 Hin1).
      * by eapply Huniq.
  - (* Delete *)
    unfold Delete. destruct (users r !! id) as [old|]; [|done].
    unfold unique. cbn. split.
    + intros id' u [_ Hin]%lookup_delete_Some. by eapply Hkey.
    + intros id1 id2 u1 u2 [_ Hin1]%lookup_delete_Some
        [_ Hin2]%lookup_delete_Some Hne. by eapply Huniq.
  - unfold AddFavorite. destruct (users r !! userID); [|done].
    by destruct (has_favorite _ _).
  - unfold RemoveFavorite. destruct (users r !! userID); [|done].
    by destruct (favorite_index _ _ _).
Qed.

(** X14: the repository's calls keep user names and emails unique: if no
    two users share a name or an email and every user is stored under its
    own id, the same holds after any run of [Create], [Update], [Delete],
    [AddFavorite] and [RemoveFavorite]. *)
Theorem repository_run_unique (cs : list call) (r : UserRepository) :
  unique r → unique (run cs r).
Proof.
  revert r. induction cs as [|c cs IH]; intros r Hr; [done|].
  cbn. apply IH. by apply repository_step_unique.
Qed.

Lemma has_favorite_true templateID favs :
  has_favorite templateID favs = true ↔ templateID ∈ favs.
Proof.
  induction favs as [|fav favs IH]; cbn.
  - split; [done|]. intros Hin. by apply elem_of_nil in Hin.
  - destruct (decide (fav = templateID)) as [->|Hne].
    + split; [|done]. intros _. by left.
    + rewrite IH. split; [by right|].
      intros [?|?]%elem_of_cons; [congruence|done].
Qed.

Lemma has_favorite_false templateID favs :
  has_favorite templateID favs = false ↔ templateID ∉ favs.
Proof.
  rewrite <- has_favorite_true. by destruct (has_favorite templateID favs).
Qed.

(** What the loop of [RemoveFavorite] finds, and what is left. *)
Lemma favorite_index_Some templateID favs : ∀ i j,
  favorite_index templateID favs i = Some j →
  ∃ k, j = (i + k)%nat ∧ favs !! k = Some templateID ∧
       templateID ∉ take k favs.
Proof.
  induction favs as [|fav favs IH]; intros i j; cbn; [done|].
  destruct (decide (fav = templateID)) as [->|Hne].
  - intros [= <-]. exists 0%nat. split_and!; [lia|done|].
    cbn. apply not_elem_of_nil.
  - intros (k & -> & Hk & Hnot)%IH. exists (S k). split_and!; [lia|done|].
    cbn. apply not_elem_of_cons. by split.
Qed.

Lemma favorite_index_None templateID favs i :
  favorite_index templateID favs i = None ↔ templateID ∉ favs.
Proof.
  revert i. induction favs as [|fav favs IH]; intros i; cbn.
  - split; [|done]. intros _. apply not_elem_of_nil.
  - destruct (decide (fav = templateID)) as [->|Hne].
    + split; [done|]. intros Hnot. destruct Hnot. by left.
    + rewrite IH, not_elem_of_cons. split; [|by intros [_ ?]].
      intros Hnot. split; [congruence|done].
Qed.

Lemma remove_at_NoDup (x : string) (l : list string) (k : nat) :
  NoDup l → l !! k = Some x →
  NoDup (take k l ++ drop (S k) l) ∧
  (∀ y, y ∈ (take k l ++ drop (S k) l) ↔ y ∈ l ∧ y ≠ x).
Proof.
  intros Hnd Hk.
  assert (l = take k l ++ x :: drop (S k) l) as Hl
    by (symmetry; by apply take_drop_middle).
  rewrite Hl in Hnd.
  apply NoDup_app in Hnd as (Hnd1 & Hdisj & Hnd2).
  apply NoDup_cons in Hnd2 as [Hx2 Hnd2].
  assert (x ∉ take k l) as Hx1.
  { intros Hin. apply (Hdisj x Hin). by left. }
  split.
  - apply NoDup_app. split_and!; [done| |done].
    intros y Hy1 Hy2. apply (Hdisj y Hy1). by right.
  - intros y. rewrite Hl at 3.
    rewrite !elem_of_app, elem_of_cons. split.
    + intros [Hy|Hy]; (split; [tauto|congruence]).
    + intros [[Hy|[Hy|Hy]] Hne]; [by left|done|by right].
Qed.

Lemma repository_step_tidy (c : call) r : tidy r → tidy (step c r).
Proof.
  intros Htidy.
  destruct c as [user|user|id|userID templateID|userID templateID]; cbn.
  - unfold Create, Create_in.
    destruct (users r !! ID user) as [old|] eqn:Hid; [done|].
    destruct (Create_scan user _); [done|]. unfold tidy. cbn.
    intros id favs Hf. destruct (Htidy id favs Hf) as [Hu Hnd].
    split; [|done]. apply lookup_insert_is_Some'. by right.
  - unfold Update, Update_in.
    destruct (users r !! ID user) as [old|] eqn:Hid; [|done].
    destruct (Update_scan user _); [done|]. unfold tidy. cbn.
    intros id favs Hf. destruct (Htidy id favs Hf) as [Hu Hnd].
    split; [|done]. apply lookup_insert_is_Some'. by right.
  - unfold Delete. destruct (users r !! id) as [old|]; [|done].
    unfold tidy. cbn.
    intros id' favs [Hne Hf]%lookup_delete_Some.
    destruct (Htidy id' favs Hf) as [Hu Hnd].
    split; [|done]. by rewrite lookup_delete_ne.
  - unfold AddFavorite.
    destruct (users r !! userID) as [u|] eqn:Hu; [|done].
    destruct (has_favorite _ _) eqn:Hhas; [done|]. unfold tidy. cbn.
    intros id favs [[<- <-]|[_ Hf]]%lookup_insert_Some; [|by apply Htidy].
    split; [by rewrite Hu|].
    apply has_favorite_false in Hhas.
    apply NoDup_app. split_and!.
    + unfold favorites_of. destruct (favorites r !! userID) as [l|] eqn:Hl.
      * by destruct (Htidy userID l Hl).
      * constructor.
    + intros x Hx [->|Hin]%elem_of_cons; [done|].
      by apply elem_of_nil in Hin.
    + apply NoDup_singleton.
  - unfold RemoveFavorite.
    destruct (users r !! userID) as [u|] eqn:Hu; [|done].
    destruct (favorite_index _ _ _) as [i|] eqn:Hidx; [|done].
    unfold tidy. cbn.
    intros id favs [[<- <-]|[_ Hf]]%lookup_insert_Some; [|by apply Htidy].
    split; [by rewrite Hu|].
    apply favorite_index_Some in Hidx as (k & -> & Hk & _).
    apply (remove_at_NoDup templateID); [|done].
    unfold favorites_of. destruct (favorites r !! userID) as [l|] eqn:Hl.
    + by destruct (Htidy userID l Hl).
    + constructor.
Qed.

(** X15: the repository's calls keep the favorites tidy: only existing
    users have a favorites entry and no entry lists a template twice, after
    any run of calls on a repository where this holds. *)
Theorem repository_run_tidy (cs : list call) (r : UserRepository) :
  tidy r → tidy (run cs r).
Proof.
  revert r. induction cs as [|c cs IH]; intros r Hr; [done|].
  cbn. apply IH. by apply repository_step_tidy.
Qed.

Lemma GetByUsername_in_sound order username u :
  GetByUsername_in order username = Success u →
  ∃ id, (id, u) ∈ order ∧ Username u = username.
Proof.
  induction order as [|[id' u'] order IH]; cbn; [done|].
  destruct (decide (Username u' = username)) as [Hn|Hn].
  - intros [= <-]. exists id'. split; [by left|done].
  - intros (id & Hin & Hu)%IH. exists id. split; [by right|done].
Qed.

Lemma GetByUsername_in_none order username :
  (∀ id u, (id, u) ∈ order → Username u ≠ username) →
  GetByUsername_in order username = Failure (NewNotFoundError "user").
Proof.
  induction order as [|[id' u'] order IH]; intros Hall; cbn; [done|].
  destruct (decide (Username u' = username)) as [Hn|Hn].
  - destruct (Hall id' u'); [by left|done].
  - apply IH. intros id u Hin. apply (Hall id). by right.
Qed.

Lemma GetByUsername_in_found order username u :
  (∀ id' u', (id', u') ∈ order → Username u' = username → u' = u) →
  (∃ id, (id, u) ∈ order) → Username u = username →
  GetByUsername_in order username = Success u.
Proof.
  intros Hsame [id Hin] Hu.
  induction order as [|[id' u'] order IH]; cbn.
  - by apply elem_of_nil in Hin.
  - destruct (decide (Username u' = username)) as [Hn|Hn].
    + f_equal. apply (Hsame id'); [by left|done].
    + apply elem_of_cons in Hin as [[= -> ->]|Hin]; [done|].
      apply IH; [|done]. intros id2 u2 Hin2. apply (Hsame id2). by right.
Qed.

Lemma GetByEmail_in_sound order email u :
  GetByEmail_in order email = Success u →
  ∃ id, (id, u) ∈ order ∧ Email u = email.
Proof.
  induction order as [|[id' u'] order IH]; cbn; [done|].
  destruct (decide (Email u' = email)) as [Hn|Hn].
  - intros [= <-]. exists id'. split; [by left|done].
  - intros (id & Hin & Hu)%IH. exists id. split; [by right|done].
Qed.

Lemma GetByEmail_in_none order email :
  (∀ id u, (id, u) ∈ order → Email u ≠ email) →
  GetByEmail_in order email = Failure (NewNotFoundError "user").
Proof.
  induction order as [|[id' u'] order IH]; intros Hall; cbn; [done|].
  destruct (decide (Email u' = email)) as [Hn|Hn].
  - destruct (Hall id' u'); [by left|done].
  - apply IH. intros id u Hin. apply (Hall id). by right.
Qed.

Lemma GetByEmail_in_found order email u :
  (∀ id' u', (id', u') ∈ order → Email u' = email → u' = u) →
  (∃ id, (id, u) ∈ order) → Email u = email →
  GetByEmail_in order email = Success u.
Proof.
  intros Hsame [id Hin] Hu.
  induction order as [|[id' u'] order IH]; cbn.
  - by apply elem_of_nil in Hin.
  - destruct (decide (Email u' = email)) as [Hn|Hn].
    + f_equal. apply (Hsame id'); [by left|done].
    + apply elem_of_cons in Hin as [[= -> ->]|Hin]; [done|].
      apply IH; [|done]. intros id2 u2 Hin2. apply (Hsame id2). by right.
Qed.

(** X16: on a repository with unique names and emails, [GetByUsername] and
    [GetByEmail] return the one user that has the name or the email, in
    whatever order they visit the users, and the not-found error when no
    user has it; a user they return is always a stored one. *)
Theorem GetByUsername_GetByEmail_spec (order : list (string * User))
    (r : UserRepository) (key : string) :
  order ≡ₚ map_to_list (users r) →
  unique r →
  (∀ id u, users r !! id = Some u → Username u = key →
           GetByUsername_in order key = Success u) ∧
  ((∀ id u, users r !! id = Some u → Username u ≠ key) →
   GetByUsername_in order key = Failure (NewNotFoundError "user")) ∧
  (∀ u, GetByUsername_in order key = Success u →
        ∃ id, users r !! id = Some u ∧ Username u = key) ∧
  (∀ id u, users r !! id = Some u → Email u = key →
           GetByEmail_in order key = Success u) ∧
  ((∀ id u, users r !! id = Some u → Email u ≠ key) →
   GetByEmail_in order key = Failure (NewNotFoundError "user")) ∧
  (∀ u, GetByEmail_in order key = Success u →
        ∃ id, users r !! id = Some u ∧ Email u = key).
Proof.
  intros Hperm [Hkey Huniq].
  assert (∀ id u, (id, u) ∈ order ↔ users r !! id = Some u) as Hin.
  { intros id u. rewrite Hperm. apply elem_of_map_to_list. }
  split_and!.
  - intros id u Hu Hn. apply GetByUsername_in_found; [|by exists id; apply Hin|done].
    intros id' u' Hin' Hn'. apply Hin in Hin'.
    destruct (decide (id' = id)) as [->|Hne]; [congruence|].
    destruct (Huniq id' id u' u Hin' Hu Hne). congruence.
  - intros Hnone. apply GetByUsername_in_none.
    intros id u Hu%Hin. by eapply Hnone.
  - intros u (id & Hu%Hin & Hn)%GetByUsername_in_sound. by exists id.
  - intros id u Hu Hn. apply GetByEmail_in_found; [|by exists id; apply Hin|done].
    intros id' u' Hin' Hn'. apply Hin in Hin'.
    destruct (decide (id' = id)) as [->|Hne]; [congruence|].
    destruct (Huniq id' id u' u Hin' Hu Hne). congruence.
  - intros Hnone. apply GetByEmail_in_none.
    intros id u Hu%Hin. by eapply Hnone.
  - intros u (id & Hu%Hin & Hn)%GetByEmail_in_sound. by exists id.
Qed.

Lemma Create_in_success order user r r' :
  Create_in order user r = (None, r') →
  users r !! ID user = None ∧
  r' = {| users := <[ID user := user]> (users r);
          favorites := favorites r |}.
Proof.
  unfold Create_in. destruct (users r !! ID user) as [old|]; [done|].
  destruct (Create_scan user order); [done|]. by intros [= <-].
Qed.

(** On a unique repository a name or an email belongs to one user. *)
Lemma unique_same_name r id u order :
  unique r → order ≡ₚ map_to_list (users r) →
  users r !! id = Some u →
  ∀ id' u', (id', u') ∈ order → Username u' = Username u → u' = u.
Proof.
  intros [Hkey Huniq] Hperm Hu id' u' Hin Hn.
  rewrite Hperm in Hin. apply elem_of_map_to_list in Hin.
  destruct (decide (id' = id)) as [->|Hne]; [congruence|].
  destruct (Huniq id' id u' u Hin Hu Hne). congruence.
Qed.

Lemma unique_same_email r id u order :
  unique r → order ≡ₚ map_to_list (users r) →
  users r !! id = Some u →
  ∀ id' u', (id', u') ∈ order → Email u' = Email u → u' = u.
Proof.
  intros [Hkey Huniq] Hperm Hu id' u' Hin Hn.
  rewrite Hperm in Hin. apply elem_of_map_to_list in Hin.
  destruct (decide (id' = id)) as [->|Hne]; [congruence|].
  destruct (Huniq id' id u' u Hin Hu Hne). congruence.
Qed.

(** X17: after a successful [Create] on a repository with unique names and
    tidy favorites, the user is found by id, by name and by email, and has
    no favorites. *)
Theorem Create_then_Get (user : User) (r r' : UserRepository) :
  unique r → tidy r →
  Create user r = (None, r') →
  GetByID (ID user) r' = Success user ∧
  GetByUsername (Username user) r' = Success user ∧
  GetByEmail (Email user) r' = Success user ∧
  GetFavorites (ID user) r' = Success [].
Proof.
  intros Huniq Htidy Hcreate.
  assert (unique r') as Huniq'.
  { change r' with (None (A:=AppError), r').2. rewrite <- Hcreate.
    apply (repository_step_unique (CallCreate user)), Huniq. }
  apply Create_in_success in Hcreate as [Hfree ->].
  set (r' := {| users := <[ID user := user]> (users r);
                favorites := favorites r |}) in *.
  assert (users r' !! ID user = Some user) as Hin by apply lookup_insert_eq.
  assert ((ID user, user) ∈ map_to_list (users r')) as Helem
    by (by apply elem_of_map_to_list).
  split_and!.
  - unfold GetByID. by rewrite Hin.
  - apply GetByUsername_in_found; [|by exists (ID user)|done].
    by apply (unique_same_name r' (ID user)).
  - apply GetByEmail_in_found; [|by exists (ID user)|done].
    by apply (unique_same_email r' (ID user)).
  - unfold GetFavorites, favorites_of. rewrite Hin. cbn.
    destruct (favorites r !! ID user) as [favs|] eqn:Hf; [|done].
    destruct (Htidy _ _ Hf) as [[old Hold] _]. congruence.
Qed.

(** X18: [Delete] of a stored user removes the user together with the
    favorites: the id is then unknown to [GetByID], [GetFavorites] and
    [AddFavorite], the other users and their favorites are as before, and a
    user created again under the id starts without favorites.  [Delete] of
    an id that is not stored is the not-found error and changes nothing. *)
Theorem Delete_then_Create_fresh (id : string) (r : UserRepository) :
  (∀ old, users r !! id = Some old →
     (Delete id r).1 = None ∧
     GetByID id (Delete id r).2 = Failure (NewNotFoundError "user") ∧
     GetFavorites id (Delete id r).2 = Failure (NewNotFoundError "user") ∧
     (∀ t, AddFavorite id t (Delete id r).2 =
             (Some (NewNotFoundError "user"), (Delete id r).2)) ∧
     (∀ id', id' ≠ id →
        users (Delete id r).2 !! id' = users r !! id' ∧
        favorites_of id' (Delete id r).2 = favorites_of id' r) ∧
     (∀ user r2, ID user = id →
        Create user (Delete id r).2 = (None, r2) →
        GetFavorites id r2 = Success [])) ∧
  (users r !! id = None →
   Delete id r = (Some (NewNotFoundError "user"), r)).
Proof.
  unfold Delete. split.
  - intros old Hid. rewrite Hid. cbn.
    assert (delete id (users r) !! id = None) as Hgone
      by apply lookup_delete_eq.
    split_and!.
    + done.
    + unfold GetByID. cbn. by rewrite Hgone.
    + unfold GetFavorites. cbn. by rewrite Hgone.
    + intros t. unfold AddFavorite. cbn. by rewrite Hgone.
    + intros id' Hne. unfold favorites_of. cbn.
      by rewrite !lookup_delete_ne.
    + intros user r2 <-. unfold Create, Create_in. cbn. rewrite Hgone.
      destruct (Create_scan user _); [done|]. intros [= <-].
      unfold GetFavorites, favorites_of. cbn.
      by rewrite lookup_insert_eq, lookup_delete_eq.
  - by intros ->.
Qed.

Lemma favorite_index_snoc templateID favs i :
  templateID ∉ favs →
  favorite_index templateID (favs ++ [templateID]) i =
    Some (i + length favs)%nat.
Proof.
  revert i. induction favs as [|fav favs IH]; intros i Hnot; cbn.
  - rewrite decide_True by done. f_equal. lia.
  - apply not_elem_of_cons in Hnot as [Hne Hnot].
    rewrite decide_False by done. rewrite IH by done. f_equal. lia.
Qed.

(** X19: adding a template that is not yet a favorite appends it; adding it
    again is a conflict; removing it gives back the favorites there were
    before. *)
Theorem AddFavorite_then_RemoveFavorite (userID templateID : string)
    (u : User) (r : UserRepository) :
  users r !! userID = Some u →
  templateID ∉ favorites_of userID r →
  (AddFavorite userID templateID r).1 = None ∧
  GetFavorites userID (AddFavorite userID templateID r).2 =
    Success (favorites_of userID r ++ [templateID]) ∧
  AddFavorite userID templateID (AddFavorite userID templateID r).2 =
    (Some (NewConflictError "template already in favorites"),
     (AddFavorite userID templateID r).2) ∧
  (RemoveFavorite userID templateID (AddFavorite userID templateID r).2).1 =
    None ∧
  GetFavorites userID
    (RemoveFavorite userID templateID
       (AddFavorite userID templateID r).2).2 =
    Success (favorites_of userID r).
Proof.
  intros Hu Hnot.
  set (favs := favorites_of userID r) in *.
  set (r1 := {| users := users r;
                favorites := <[userID := favs ++ [templateID]]>
                               (favorites r) |}).
  assert (AddFavorite userID templateID r = (None, r1)) as Hadd.
  { unfold AddFavorite. rewrite Hu. fold favs.
    by rewrite (proj2 (has_favorite_false _ _)). }
  assert (users r1 !! userID = Some u) as Hu1 by done.
  assert (favorites_of userID r1 = favs ++ [templateID]) as Hf1.
  { unfold favorites_of, r1. cbn. by rewrite lookup_insert_eq. }
  assert (RemoveFavorite userID templateID r1 =
            (None, {| users := users r;
                      favorites := <[userID := favs]> (favorites r1) |}))
    as Hrem.
  { unfold RemoveFavorite. rewrite Hu1, Hf1.
    rewrite favorite_index_snoc by done. cbn. do 3 f_equal.
    rewrite take_app_length.
    rewrite drop_app_ge by lia.
    replace (S (length favs) - length favs)%nat with 1%nat by lia.
    cbn. by rewrite app_nil_r. }
  rewrite Hadd. cbn [fst snd]. rewrite Hrem. cbn [fst snd].
  split_and!.
  - done.
  - unfold GetFavorites. by rewrite Hu1, Hf1.
  - unfold AddFavorite. rewrite Hu1, Hf1.
    rewrite (proj2 (has_favorite_true _ _)); [done|].
    apply elem_of_app. right. by left.
  - done.
  - unfold GetFavorites, favorites_of. cbn. by rewrite Hu, lookup_insert_eq.
Qed.

(** X20: on a repository with tidy favorites, [RemoveFavorite] of a template
    the user has removes it and keeps the other favorites, and leaves the
    favorites of every other user alone; for a template the user does not
    have it is the not-found error and changes nothing. *)
Theorem RemoveFavorite_removes (userID templateID : string) (u : User)
    (r : UserRepository) :
  tidy r →
  users r !! userID = Some u →
  (templateID ∈ favorites_of userID r →
   (RemoveFavorite userID templateID r).1 = None ∧
   (∀ t, t ∈ favorites_of userID (RemoveFavorite userID templateID r).2 ↔
         t ∈ favorites_of userID r ∧ t ≠ templateID) ∧
   (∀ other, other ≠ userID →
      favorites_of other (RemoveFavorite userID templateID r).2 =
      favorites_of other r)) ∧
  (templateID ∉ favorites_of userID r →
   RemoveFavorite userID templateID r =
     (Some (NewNotFoundError "favorite"), r)).
Proof.
  intros Htidy Hu. unfold RemoveFavorite. rewrite Hu. cbn. split.
  - intros Hin.
    destruct (favorite_index templateID (favorites_of userID r) 0)
      as [i|] eqn:Hidx.
    2:{ apply favorite_index_None in Hidx. done. }
    apply favorite_index_Some in Hidx as (k & -> & Hk & _). cbn.
    assert (NoDup (favorites_of userID r)) as Hnd.
    { unfold favorites_of. destruct (favorites r !! userID) as [l|] eqn:Hl.
      - by destruct (Htidy userID l Hl).
      - constructor. }
    destruct (remove_at_NoDup templateID _ k Hnd Hk) as [_ Hmem].
    split_and!; [done| |].
    + intros t. unfold favorites_of at 1. cbn. rewrite lookup_insert_eq.
      cbn. apply Hmem.
    + intros other Hne. unfold favorites_of. cbn.
      by rewrite lookup_insert_ne.
  - intros Hnot. apply favorite_index_None with (i := 0%nat) in Hnot.
    by rewrite Hnot.
Qed.

(** X21: on a repository with unique names and emails, [Update] of a stored
    user that keeps its name and email always succeeds and replaces the
    record, in whatever order it visits the users; [Update] of a user whose
    id is not stored is the not-found error and changes nothing. *)
Theorem Update_same_identity (order : list (string * User)) (user : User)
    (r : UserRepository) :
  order ≡ₚ map_to_list (users r) →
  unique r →
  (∀ old, users r !! ID user = Some old →
     Username user = Username old → Email user = Email old →
     Update_in order user r =
       (None, {| users := <[ID user := user]> (users r);
                 favorites := favorites r |})) ∧
  (users r !! ID user = None →
   Update_in order user r = (Some (NewNotFoundError "user"), r)).
Proof.
  intros Hperm [Hkey Huniq]. unfold Update_in. split.
  - intros old Hold Hn He. rewrite Hold.
    assert (Update_scan user order = None) as ->; [|done].
    apply Update_scan_None. intros id u Hin Hne.
    rewrite Hperm in Hin. apply elem_of_map_to_list in Hin.
    destruct (Huniq id (ID user) u old Hin Hold Hne). split; congruence.
  - by intros ->.
Qed.

End user_repository.

(** ** The session middleware, the role checks and [Logout] *)

Section sessionweb_properties.
Import gin sessionweb.
Context {Value : Type}.
Implicit Types (sm : auth.SessionManager Value) (c : Context Value).
Implicit Types (s session : auth.Session Value).

(** The context once [RequireAuth] has stored the session's identity. *)
Local Abbreviation identified session c :=
  (Set_ "session" (ASession session)
     (Set_ "email" (AString (auth.Email session))
        (Set_ "username" (AString (auth.Username session))
           (Set_ "user_id" (AString (auth.UserID session)) c)))).

Local Abbreviation unauthorized c :=
  (Abort (JSON errors.StatusUnauthorized
            {[ "error" := AError (errors.NewUnauthorizedError
                                    "authentication required") ]} c)).

Lemma RequireAuth_absent Next now1 now2 sm c ck :
  http.Request_Cookie "session_id" (Request c) = Ok ck →
  auth.sessions sm !! http.Value ck = None →
  RequireAuth Next now1 now2 (sm, c) = (sm, unauthorized c).
Proof.
  intros Hck Hid. unfold RequireAuth, GetSessionFromContext.
  rewrite Hck. by rewrite GetSession_absent.
Qed.

(** X22: [Logout] on a manager whose sessions are stored under their own
    ids removes the session the request's cookie names, whether it was
    live, expired or unknown, leaves every other session and the timeout
    alone, clears the cookie (empty value, max-age -1, path "/",
    http-only) and answers 200; without a session cookie it leaves the
    manager as it is. *)
Theorem Logout_removes_session (now1 now2 : Z)
    (sm : auth.SessionManager Value) (c : Context Value) :
  (∀ id s, auth.sessions sm !! id = Some s → auth.ID s = id) →
  (∀ ck, http.Request_Cookie "session_id" (Request c) = Ok ck →
     auth.sessions (Logout now1 now2 (sm, c)).1 !! http.Value ck = None ∧
     (∀ id, id ≠ http.Value ck →
        auth.sessions (Logout now1 now2 (sm, c)).1 !! id =
        auth.sessions sm !! id) ∧
     auth.timeout (Logout now1 now2 (sm, c)).1 = auth.timeout sm) ∧
  (∀ err, http.Request_Cookie "session_id" (Request c) = Err err →
     (Logout now1 now2 (sm, c)).1 = sm) ∧
  CookiesSet (Logout now1 now2 (sm, c)).2 =
    CookiesSet c ++
    [ {| name := "session_id"; value := ""; maxAge := -1; path := "/";
         domain := "";
         secure := http.TLS (Request c)
                   || bool_decide (GetHeader "X-Forwarded-Proto" c = "https");
         httpOnly := true |} ] ∧
  Written (Logout now1 now2 (sm, c)).2 =
    Written c ++
    [ (http.StatusOK, {[ "message" := AString "Logged out successfully" ]}) ] ∧
  Aborted (Logout now1 now2 (sm, c)).2 = Aborted c.
Proof.
  intros Hkey. split_and!; [| |done..].
  - intros ck Hck. unfold Logout, GetSessionFromContext. rewrite Hck.
    set (id := http.Value ck).
    destruct (auth.sessions sm !! id) as [s|] eqn:Hid.
    + destruct (Z_lt_le_dec (auth.ExpiresAt s) now1) as [Hexp|Hlive].
      * rewrite (GetSession_expired id s) by done. cbn.
        split_and!; [apply lookup_delete_eq| |done].
        intros id' Hne. by rewrite lookup_delete_ne.
      * rewrite (GetSession_live id s) by done. cbn.
        rewrite (Hkey id s Hid).
        split_and!; [apply lookup_delete_eq| |done].
        intros id' Hne. rewrite lookup_delete_ne by done.
        by rewrite lookup_insert_ne.
    + rewrite GetSession_absent by done. by cbn.
  - intros err Hck. unfold Logout, GetSessionFromContext. by rewrite Hck.
Qed.

(** X23: after [CreateSession], a request that carries the new id in its
    [session_id] cookie and arrives before the session expires passes
    [RequireAuth]: the rest of the chain runs with [user_id], [username]
    and [email] set to what [CreateSession] was given, nothing is written
    or aborted, and the session's expiry is moved to the time of the
    request plus the timeout. *)
Theorem RequireAuth_after_CreateSession (rnd : result (list Byte.byte))
    (created expiry_read : Z) (userID username email : string)
    (sm sm1 : auth.SessionManager Value) (session : auth.Session Value)
    (c : Context Value) (ck : http.Cookie)
    (Next : sessionweb.state Value → sessionweb.state Value)
    (now1 now2 : Z) :
  auth.CreateSession rnd created expiry_read userID username email sm =
    (Ok session, sm1) →
  http.Request_Cookie "session_id" (Request c) = Ok ck →
  http.Value ck = auth.ID session →
  now1 ≤ expiry_read + auth.timeout sm →
  ∃ (sm2 : auth.SessionManager Value) (c2 : Context Value),
    RequireAuth Next now1 now2 (sm1, c) = Next (sm2, c2) ∧
    Keys c2 !! "user_id" = Some (AString userID) ∧
    Keys c2 !! "username" = Some (AString username) ∧
    Keys c2 !! "email" = Some (AString email) ∧
    Written c2 = Written c ∧
    Aborted c2 = Aborted c ∧
    ∃ s2, auth.sessions sm2 !! auth.ID session = Some s2 ∧
          auth.ExpiresAt s2 = now2 + auth.timeout sm.
Proof.
  unfold auth.CreateSession.
  destruct (auth.generateSessionID rnd) as [sessionID|err]; [|done].
  intros [= <- <-] Hck Hval Hlive. cbn in Hval.
  unfold RequireAuth, GetSessionFromContext. rewrite Hck, Hval.
  erewrite GetSession_live; [|apply lookup_insert_eq|done].
  eexists _, _. split; [reflexivity|]. cbn.
  split_and!.
  - rewrite !lookup_insert_ne by done. apply lookup_insert_eq.
  - rewrite !lookup_insert_ne by done. apply lookup_insert_eq.
  - rewrite lookup_insert_ne by done. apply lookup_insert_eq.
  - done.
  - done.
  - eexists. split; [apply lookup_insert_eq|done].
Qed.

Lemma Logout_gone now1 now2 sm c ck :
  (∀ id s, auth.sessions sm !! id = Some s → auth.ID s = id) →
  http.Request_Cookie "session_id" (Request c) = Ok ck →
  auth.sessions (Logout now1 now2 (sm, c)).1 !! http.Value ck = None.
Proof.
  intros Hkey Hck. unfold Logout, GetSessionFromContext. rewrite Hck.
  unfold auth.GetSession.
  destruct (auth.sessions sm !! http.Value ck) as [s|] eqn:Hid; [|done].
  destruct (time.After now1 (auth.ExpiresAt s)); cbn.
  - apply lookup_delete_eq.
  - rewrite (Hkey _ s Hid). apply lookup_delete_eq.
Qed.

(** X24: once [Logout] has run for a request, the same cookie no longer
    passes [RequireAuth], at whatever time and after whatever further calls
    on the manager that do not create a session under the same id: the
    answer is 401 and the chain is aborted. *)
Theorem RequireAuth_after_Logout (now1 now2 now3 now4 : Z)
    (sm : auth.SessionManager Value) (c c' : Context Value)
    (ck : http.Cookie) (cs : list (auth.call Value))
    (Next : sessionweb.state Value → sessionweb.state Value) :
  (∀ id s, auth.sessions sm !! id = Some s → auth.ID s = id) →
  http.Request_Cookie "session_id" (Request c) = Ok ck →
  Request c' = Request c →
  Forall (λ call, ¬ auth.creates (http.Value ck) call) cs →
  RequireAuth Next now3 now4
    (auth.run cs (Logout now1 now2 (sm, c)).1, c') =
  (auth.run cs (Logout now1 now2 (sm, c)).1, unauthorized c').
Proof.
  intros Hkey Hck Hreq Hcs.
  pose proof (Logout_gone now1 now2 sm c ck Hkey Hck) as Hnone.
  apply (RequireAuth_absent _ _ _ _ _ ck); [by rewrite Hreq|].
  by apply auth_run_absent.
Qed.

(** X25: [RequireAuth] identifies the user but sets no role.  For a request
    that it lets pass and whose context has no [user_role] key,
    [RequireOrganizationMember] passes and records the organization id,
    while [RequireRole], [RequireOrganizationAdmin] and
    [RequireOrganizationOwner] answer 403 "role information not available"
    and abort. *)
Theorem role_checks_after_RequireAuth (now1 now2 : Z)
    (sm sm2 : auth.SessionManager Value) (c : Context Value)
    (session : auth.Session Value) (role organizationID : string)
    (Next : Context Value → Context Value) :
  GetSessionFromContext c now1 now2 sm = (Some session, true, sm2) →
  Keys c !! "user_role" = None →
  RequireAuth (λ st, (st.1, RequireOrganizationMember organizationID Next st.2))
    now1 now2 (sm, c) =
    (sm2, Next (Set_ "organization_id" (AString organizationID)
                  (identified session c))) ∧
  RequireAuth (λ st, (st.1, RequireRole role Next st.2)) now1 now2 (sm, c) =
    (sm2, Abort (JSON errors.StatusForbidden (role_not_available Value)
                   (identified session c))) ∧
  RequireAuth (λ st, (st.1, RequireOrganizationAdmin Next st.2))
    now1 now2 (sm, c) =
    (sm2, Abort (JSON errors.StatusForbidden (role_not_available Value)
                   (identified session c))) ∧
  RequireAuth (λ st, (st.1, RequireOrganizationOwner Next st.2))
    now1 now2 (sm, c) =
    (sm2, Abort (JSON errors.StatusForbidden (role_not_available Value)
                   (identified session c))).
Proof.
  intros Hget Hrole. unfold RequireAuth. rewrite Hget. cbn [fst snd].
  assert (Get "user_role" (identified session c) = None) as Hnone.
  { unfold Get. cbn. by rewrite !lookup_insert_ne. }
  unfold RequireOrganizationMember, RequireRole, RequireOrganizationAdmin,
    RequireOrganizationOwner.
  rewrite Hnone. split_and!; try done.
  unfold Get. cbn. rewrite lookup_insert_ne by done.
  rewrite lookup_insert_ne by done. rewrite lookup_insert_ne by done.
  by rewrite lookup_insert_eq.
Qed.

(** X26: the owner check passes exactly the string [owner] and the admin
    check exactly the strings [owner] and [admin]: whatever passes
    [RequireOrganizationOwner] passes [RequireOrganizationAdmin] and
    [RequireRole("owner")], and a role that is no string, or any other
    string, is refused by both with 403. *)
Theorem role_checks_hierarchy (Next : Context Value → Context Value)
    (c : Context Value) (userRole : any Value) :
  Keys c !! "user_role" = Some userRole →
  (userRole = AString "owner" →
   RequireOrganizationOwner Next c = Next c ∧
   RequireOrganizationAdmin Next c = Next c ∧
   RequireRole "owner" Next c = Next c) ∧
  (userRole = AString "admin" →
   RequireOrganizationAdmin Next c = Next c ∧
   RequireOrganizationOwner Next c =
     Abort (JSON errors.StatusForbidden
              {[ "error" := AError (errors.NewForbiddenError
                                      "owner privileges required") ]} c)) ∧
  (userRole ≠ AString "owner" → userRole ≠ AString "admin" →
   RequireOrganizationAdmin Next c =
     Abort (JSON errors.StatusForbidden
              {[ "error" := AError (errors.NewForbiddenError
                                      "admin privileges required") ]} c) ∧
   RequireOrganizationOwner Next c =
     Abort (JSON errors.StatusForbidden
              {[ "error" := AError (errors.NewForbiddenError
                                      "owner privileges required") ]} c)).
Proof.
  intros Hrole.
  unfold RequireOrganizationOwner, RequireOrganizationAdmin, RequireRole, Get.
  rewrite Hrole. split_and!.
  - by intros ->.
  - by intros ->.
  - intros Hno Hna. destruct userRole as [r| |]; cbn; [|done..].
    assert (r ≠ "owner") by congruence.
    assert (r ≠ "admin") by congruence.
    by rewrite !bool_decide_eq_true_2.
Qed.

End sessionweb_properties.

(** ** The legacy middleware, further *)

Section legacy_middleware.
Import middleware.
Context {any : Type}.

(** X27: the legacy [OptionalAuth] never identifies a user: whatever the
    request carries, it runs the rest of the chain on the context as it
    got it. *)
Theorem OptionalAuth_passes_unchanged (Next : Context any → Context any)
    (c : Context any) :
  OptionalAuth Next c = Next c.
Proof.
  unfold OptionalAuth, getSession.
  destruct (Request_Cookie "session" (Request_ c)) as [sessionCookie|err];
    [|done].
  by destruct (decide (Value sessionCookie = "")).
Qed.

End legacy_middleware.

(** ** [strings.Split] and [extractBearerToken] *)

Section bearer_token.
Import strings bearer.

Lemma Split_nonempty s sep : Split s sep ≠ [].
Proof.
  destruct s as [|c s]; cbn; [done|].
  destruct (decide (c = sep)); [done|]. by destruct (Split s sep).
Qed.

Lemma Split_plain s sep : ContainsByte s sep = false → Split s sep = [s].
Proof.
  induction s as [|c s IH]; cbn; [done|].
  destruct (decide (c = sep)); [done|]. intros Hs. by rewrite IH.
Qed.

Lemma Split_sep a b sep :
  ContainsByte a sep = false →
  Split (a +:+ String sep b) sep = a :: Split b sep.
Proof.
  induction a as [|c a IH].
  - intros _. change ("" +:+ String sep b) with (String sep b).
    cbn. by rewrite decide_True.
  - change (String c a +:+ String sep b) with (String c (a +:+ String sep b)).
    cbn. destruct (decide (c = sep)); [done|]. intros Ha. by rewrite IH.
Qed.

Lemma Split_one s sep b :
  Split s sep = [b] → s = b ∧ ContainsByte b sep = false.
Proof.
  revert b. induction s as [|c s IH]; intros b; cbn.
  - by intros [= <-].
  - destruct (decide (c = sep)) as [->|Hne].
    + intros [= _ Hs]. by apply Split_nonempty in Hs.
    + destruct (Split s sep) as [|piece pieces] eqn:Hs.
      { by apply Split_nonempty in Hs. }
      intros [= <- ->]. destruct (IH piece eq_refl) as [-> Hp].
      cbn. by rewrite decide_False.
Qed.

Lemma Split_two s sep a b :
  Split s sep = [a; b] →
  s = a +:+ String sep b ∧
  ContainsByte a sep = false ∧ ContainsByte b sep = false.
Proof.
  revert a. induction s as [|c s IH]; intros a; cbn; [done|].
  destruct (decide (c = sep)) as [->|Hne].
  - intros [= <- Hs]. apply Split_one in Hs as [-> Hb]. done.
  - destruct (Split s sep) as [|piece pieces] eqn:Hs.
    { by apply Split_nonempty in Hs. }
    intros [= <- ->]. destruct (IH piece eq_refl) as (-> & Hp & Hb).
    cbn. by rewrite decide_False.
Qed.

Variable ToLower : string → string.

(** X28: [extractBearerToken] returns a non-empty token only for a header
    made of a scheme that lower-cases to [bearer], one space and the token,
    with no further space, and the token is then the part after the space;
    for every header of that shape it returns that part. *)
Theorem extractBearerToken_spec :
  (∀ authHeader,
     extractBearerToken ToLower authHeader ≠ "" →
     ∃ scheme,
       authHeader =
         scheme +:+ " " +:+ extractBearerToken ToLower authHeader ∧
       ToLower scheme = "bearer" ∧
       ContainsByte scheme " " = false ∧
       ContainsByte (extractBearerToken ToLower authHeader) " " = false) ∧
  (∀ scheme token,
     ContainsByte scheme " " = false →
     ContainsByte token " " = false →
     ToLower scheme = "bearer" →
     extractBearerToken ToLower (scheme +:+ " " +:+ token) = token).
Proof.
  split.
  - intros authHeader. unfold extractBearerToken.
    destruct (decide (authHeader = "")); [done|].
    destruct (Split authHeader " ") as [|a [|b [|x parts]]] eqn:Hs;
      cbn; try done.
    destruct (bool_decide (ToLower a ≠ "bearer")) eqn:Hlow; [done|].
    apply bool_decide_eq_false in Hlow. apply dec_stable in Hlow.
    intros _. apply Split_two in Hs as (-> & Ha & Hb).
    by exists a.
  - intros scheme token Hs Ht Hlow. unfold extractBearerToken.
    rewrite decide_False by (by destruct scheme).
    change (" " +:+ token) with (String " " token).
    rewrite Split_sep, (Split_plain token) by done. cbn.
    by rewrite Hlow, bool_decide_eq_false_2 by (by intros []).
Qed.

End bearer_token.

(** ** Further scenarios, run through the theorems *)

Section scenarios_further.
Import scenario.

(** [S1], issued at time 0, validates at time 300 after a sweep, the issue
    of another token and the validation of that other token. *)
Lemma GetAuthURL_then_ValidateState_witness :
  Forall (oauth.quiet S1 300) oauth_quiet_calls ∧
  (oauth.ValidateState S1 300
     (oauth.run AuthCodeURL oauth_quiet_calls service1)).1 = true.
Proof.
  assert (Forall (oauth.quiet S1 300) oauth_quiet_calls) as Hquiet.
  { repeat constructor; vm_compute; discriminate. }
  split; [exact Hquiet|].
  pose proof (GetAuthURL_then_ValidateState AuthCodeURL entropy1 0 300
                service0 oauth_quiet_calls Hquiet) as Hv.
  unfold S1, service1. rewrite Hv. vm_compute. reflexivity.
Defined.

(** The sweep at time 5 keeps [S1], which expires ten minutes after 0. *)
Lemma cleanupExpiredStates_tick_exact_witness :
  map_to_list (oauth.states service1) ≡ₚ map_to_list (oauth.states service1) ∧
  oauth.states (oauth.cleanupExpiredStates_tick 5 service1) !! S1 =
    Some {| oauth.Token := S1; oauth.ExpiresAt := 600000000000 |}.
Proof.
  assert (map_to_list (oauth.states service1)
            ≡ₚ map_to_list (oauth.states service1)) as Hperm by reflexivity.
  split; [exact Hperm|].
  destruct (cleanupExpiredStates_tick_exact _ 5 service1 Hperm) as [Hiff _].
  apply Hiff. split; [vm_compute; reflexivity|cbn; lia].
Defined.

(** Sweeping at 5 and validating [S1] at 7 commute. *)
Lemma ValidateState_after_cleanup_witness :
  5 ≤ 7 ∧
  oauth.ValidateState S1 7 (oauth.cleanupExpiredStates_tick 5 service1) =
    (true, oauth.cleanupExpiredStates_tick 5 service0).
Proof.
  assert (5 ≤ 7) as Hle by lia. split; [exact Hle|].
  rewrite (ValidateState_after_cleanup S1 5 7 service1 Hle).
  vm_compute. reflexivity.
Defined.

(** The token that validates at time 5 is the one the history issued. *)
Lemma ValidateState_true_issued_witness :
  oauth.ValidateState S1 5
    (oauth.run AuthCodeURL oauth_history (oauth.NewOAuthService Getenv)) =
    (true, oauth.NewOAuthService Getenv) ∧
  ∃ (b : list Byte.byte) (now0 : Z),
    oauth.CallGetAuthURL (Ok b) now0 ∈ oauth_history ∧
    S1 = base64.EncodeToString b ∧
    5 ≤ now0 + 10 * time.Minute.
Proof.
  assert (oauth.ValidateState S1 5
            (oauth.run AuthCodeURL oauth_history
               (oauth.NewOAuthService Getenv)) =
            (true, oauth.NewOAuthService Getenv)) as Hv
    by (vm_compute; reflexivity).
  split; [exact Hv|].
  exact (ValidateState_true_issued AuthCodeURL Getenv oauth_history S1 5 _ Hv).
Defined.

(** The session found at time 5 is the one the history created for
    [u1]. *)
Lemma GetSession_found_created_witness :
  (auth.GetSession id1 5 6
     (auth.run session_history (auth.NewSessionManager string 20))).1 =
    (Some (auth.set_ExpiresAt 26 session1), true) ∧
  ∃ (bytes : list Byte.byte) (created expiry_read : Z),
    auth.CallCreateSession (Ok bytes) created expiry_read
      "u1" "alice" "alice@example.com" ∈ session_history ∧
    id1 = hex.EncodeToString bytes ∧
    0 = created.
Proof.
  split; [vm_compute; reflexivity|].
  assert (auth.GetSession id1 5 6
            (auth.run session_history (auth.NewSessionManager string 20)) =
            (Some (auth.set_ExpiresAt 26 session1), true,
             (auth.GetSession id1 5 6
                (auth.run session_history
                   (auth.NewSessionManager string 20))).2)) as Hget
    by (vm_compute; reflexivity).
  destruct (GetSession_found_created 20 session_history id1 5 6 _ _ Hget)
    as [_ Hcreated].
  exact Hcreated.
Defined.

(** A sweep at time 3 does not change what the read at time 5 returns. *)
Lemma GetSession_after_cleanup_witness :
  3 ≤ 5 ∧
  (auth.GetSession id1 5 6 (auth.cleanupExpiredSessions_tick 3 manager2)).1 =
    (Some (auth.set_ExpiresAt 26 session1), true).
Proof.
  assert (3 ≤ 5) as Hle by lia. split; [exact Hle|].
  rewrite (GetSession_after_cleanup id1 3 5 6 manager2 Hle).
  vm_compute. reflexivity.
Defined.

(** After the logout of the first session, the creation of another session
    and a further read do not bring it back. *)
Lemma DeleteSession_permanent_witness :
  Forall (λ c : auth.call string, ¬ auth.creates id1 c)
    [ auth.CallCreateSession (Ok entropy2) 15 15 "u2" "bob" "bob@example.com";
      auth.CallGetSession id1 16 16 ] ∧
  (auth.GetSession id1 17 17
     (auth.run
        [ auth.CallCreateSession (Ok entropy2) 15 15 "u2" "bob"
            "bob@example.com";
          auth.CallGetSession id1 16 16 ]
        (auth.DeleteSession id1 manager1))).1 = (None, false).
Proof.
  assert (Forall (λ c : auth.call string, ¬ auth.creates id1 c)
            [ auth.CallCreateSession (Ok entropy2) 15 15 "u2" "bob"
                "bob@example.com";
              auth.CallGetSession id1 16 16 ]) as Hcs.
  { repeat constructor; [vm_compute; discriminate|cbn; tauto]. }
  split; [exact Hcs|].
  by rewrite (DeleteSession_permanent id1 _ 17 17 manager1 Hcs).
Defined.

(** Reading a live session after an update returns the merged data. *)
Lemma UpdateSession_GetSession_commute_witness :
  auth.sessions manager2 !! id1 = Some session1 ∧
  5 ≤ auth.ExpiresAt session1 ∧
  (auth.GetSession id1 5 6 (auth.UpdateSession id1 data1 manager2)).1.1 =
    Some (auth.set_ExpiresAt 26 (auth.set_Data data1 session1)).
Proof.
  assert (auth.sessions manager2 !! id1 = Some session1) as Hin
    by (vm_compute; reflexivity).
  assert (5 ≤ auth.ExpiresAt session1) as Hlive by (cbn; lia).
  split_and!; [exact Hin|exact Hlive|].
  destruct (UpdateSession_GetSession_commute id1 data1 5 6 manager2)
    as (_ & _ & Hfound).
  rewrite (Hfound session1 Hin Hlive). vm_compute. reflexivity.
Defined.

End scenarios_further.

(** ** The repository and the handlers on concrete data *)

Section scenarios_repository.
Import scenario.

Lemma NewUserRepository_unique : memory.unique memory.NewUserRepository.
Proof. split; intros *; cbn; by rewrite lookup_empty. Qed.

Lemma NewUserRepository_tidy : memory.tidy memory.NewUserRepository.
Proof. intros id favs. cbn. by rewrite lookup_empty. Qed.

Lemma repository1_unique : memory.unique repository1.
Proof.
  apply (repository_step_unique (memory.CallAddFavorite "u1" "t2")).
  apply (repository_step_unique (memory.CallAddFavorite "u1" "t1")).
  apply (repository_step_unique (memory.CallCreate bob)).
  apply (repository_step_unique (memory.CallCreate alice)).
  exact NewUserRepository_unique.
Qed.

Lemma repository1_tidy : memory.tidy repository1.
Proof.
  apply (repository_step_tidy (memory.CallAddFavorite "u1" "t2")).
  apply (repository_step_tidy (memory.CallAddFavorite "u1" "t1")).
  apply (repository_step_tidy (memory.CallCreate bob)).
  apply (repository_step_tidy (memory.CallCreate alice)).
  exact NewUserRepository_tidy.
Qed.

(** [carol] is new to the repository of [alice] and [bob]. *)
Lemma Create_succeeds_iff_witness :
  map_to_list (memory.users repository1)
    ≡ₚ map_to_list (memory.users repository1) ∧
  memory.users repository1 !! memory.ID carol = None ∧
  (memory.Create carol repository1).2 =
    {| memory.users := <["u3" := carol]> (memory.users repository1);
       memory.favorites := memory.favorites repository1 |}.
Proof.
  assert (map_to_list (memory.users repository1)
            ≡ₚ map_to_list (memory.users repository1)) as Hperm
    by reflexivity.
  destruct (Create_succeeds_iff _ carol repository1 Hperm)
    as (Hiff & Hstore & _).
  assert ((memory.Create_in (map_to_list (memory.users repository1))
             carol repository1).1 = None) as Hnone
    by (vm_compute; reflexivity).
  split_and!; [exact Hperm| |exact (Hstore Hnone)].
  exact (proj1 (proj1 Hiff Hnone)).
Defined.

(** The history of two creations and two favorites keeps names and emails
    unique. *)
Lemma repository_run_unique_witness :
  memory.unique memory.NewUserRepository ∧
  memory.unique (memory.run repository_history memory.NewUserRepository).
Proof.
  split; [exact NewUserRepository_unique|].
  exact (repository_run_unique repository_history _ NewUserRepository_unique).
Defined.

Lemma repository_run_tidy_witness :
  memory.tidy memory.NewUserRepository ∧
  memory.tidy (memory.run repository_history memory.NewUserRepository).
Proof.
  split; [exact NewUserRepository_tidy|].
  exact (repository_run_tidy repository_history _ NewUserRepository_tidy).
Defined.

(** [bob] is found by name and [alice] by email. *)
Lemma GetByUsername_GetByEmail_spec_witness :
  map_to_list (memory.users repository1)
    ≡ₚ map_to_list (memory.users repository1) ∧
  memory.unique repository1 ∧
  memory.GetByUsername "bob" repository1 = errors.Success bob ∧
  memory.GetByEmail "alice@example.com" repository1 = errors.Success alice.
Proof.
  assert (map_to_list (memory.users repository1)
            ≡ₚ map_to_list (memory.users repository1)) as Hperm
    by reflexivity.
  split_and!; [exact Hperm|exact repository1_unique| |].
  - destruct (GetByUsername_GetByEmail_spec _ repository1 "bob" Hperm
                repository1_unique) as (Hname & _).
    apply (Hname "u2" bob); vm_compute; reflexivity.
  - destruct (GetByUsername_GetByEmail_spec _ repository1 "alice@example.com"
                Hperm repository1_unique) as (_ & _ & _ & Hmail & _).
    apply (Hmail "u1" alice); vm_compute; reflexivity.
Defined.

(** [carol], once created, is found by id, name and email and has no
    favorites. *)
Lemma Create_then_Get_witness :
  memory.unique repository1 ∧
  memory.tidy repository1 ∧
  memory.Create carol repository1 =
    (None, (memory.Create carol repository1).2) ∧
  memory.GetByID "u3" (memory.Create carol repository1).2 =
    errors.Success carol ∧
  memory.GetByUsername "carol" (memory.Create carol repository1).2 =
    errors.Success carol ∧
  memory.GetFavorites "u3" (memory.Create carol repository1).2 =
    errors.Success [].
Proof.
  assert (memory.Create carol repository1 =
            (None, (memory.Create carol repository1).2)) as Hnew
    by (vm_compute; reflexivity).
  destruct (Create_then_Get carol repository1 _ repository1_unique
              repository1_tidy Hnew) as (Hid & Hname & _ & Hfav).
  split_and!;
    [exact repository1_unique|exact repository1_tidy|exact Hnew
    |exact Hid|exact Hname|exact Hfav].
Defined.

(** [alice] has two favorites; deleted and created again she has none. *)
Lemma Delete_then_Create_fresh_witness :
  memory.users repository1 !! "u1" = Some alice ∧
  memory.GetFavorites "u1" repository1 = errors.Success ["t1"; "t2"] ∧
  memory.Create alice (memory.Delete "u1" repository1).2 =
    (None, (memory.Create alice (memory.Delete "u1" repository1).2).2) ∧
  memory.GetFavorites "u1"
    (memory.Create alice (memory.Delete "u1" repository1).2).2 =
    errors.Success [] ∧
  memory.users repository1 !! "u9" = None ∧
  memory.Delete "u9" repository1 =
    (Some (errors.NewNotFoundError "user"), repository1).
Proof.
  assert (memory.users repository1 !! "u1" = Some alice) as Hin
    by (vm_compute; reflexivity).
  assert (memory.users repository1 !! "u9" = None) as Hout
    by (vm_compute; reflexivity).
  assert (memory.Create alice (memory.Delete "u1" repository1).2 =
            (None, (memory.Create alice (memory.Delete "u1" repository1).2).2))
    as Hnew by (vm_compute; reflexivity).
  destruct (Delete_then_Create_fresh "u1" repository1) as [Hdel _].
  destruct (Delete_then_Create_fresh "u9" repository1) as [_ Habs].
  destruct (Hdel alice Hin) as (_ & _ & _ & _ & _ & Hfresh).
  split_and!; [exact Hin|vm_compute; reflexivity|exact Hnew| |exact Hout|].
  - exact (Hfresh alice _ eq_refl Hnew).
  - exact (Habs Hout).
Defined.

(** [bob] adds [t9], cannot add it twice, and removes it again. *)
Lemma AddFavorite_then_RemoveFavorite_witness :
  memory.users repository1 !! "u2" = Some bob ∧
  ("t9" ∉ memory.favorites_of "u2" repository1) ∧
  memory.GetFavorites "u2" (memory.AddFavorite "u2" "t9" repository1).2 =
    errors.Success ["t9"] ∧
  memory.GetFavorites "u2"
    (memory.RemoveFavorite "u2" "t9"
       (memory.AddFavorite "u2" "t9" repository1).2).2 =
    errors.Success [].
Proof.
  assert (memory.users repository1 !! "u2" = Some bob) as Hin
    by (vm_compute; reflexivity).
  assert (memory.favorites_of "u2" repository1 = []) as Hnil
    by (vm_compute; reflexivity).
  assert ("t9" ∉ memory.favorites_of "u2" repository1) as Hnot.
  { rewrite Hnil. apply not_elem_of_nil. }
  destruct (AddFavorite_then_RemoveFavorite "u2" "t9" bob repository1
              Hin Hnot) as (_ & Hadded & _ & _ & Hback).
  split_and!; [exact Hin|exact Hnot| |].
  - rewrite Hadded, Hnil. reflexivity.
  - rewrite Hback, Hnil. reflexivity.
Defined.

(** [alice] removes [t1] and keeps [t2]; [t7] she does not have. *)
Lemma RemoveFavorite_removes_witness :
  memory.tidy repository1 ∧
  memory.users repository1 !! "u1" = Some alice ∧
  "t1" ∈ memory.favorites_of "u1" repository1 ∧
  "t2" ∈ memory.favorites_of "u1"
           (memory.RemoveFavorite "u1" "t1" repository1).2 ∧
  ("t1" ∉ memory.favorites_of "u1"
            (memory.RemoveFavorite "u1" "t1" repository1).2) ∧
  ("t7" ∉ memory.favorites_of "u1" repository1) ∧
  memory.RemoveFavorite "u1" "t7" repository1 =
    (Some (errors.NewNotFoundError "favorite"), repository1).
Proof.
  assert (memory.users repository1 !! "u1" = Some alice) as Hin
    by (vm_compute; reflexivity).
  assert (memory.favorites_of "u1" repository1 = ["t1"; "t2"]) as Hfav
    by (vm_compute; reflexivity).
  assert ("t1" ∈ memory.favorites_of "u1" repository1) as Hhas.
  { rewrite Hfav. by left. }
  assert ("t2" ∈ memory.favorites_of "u1" repository1) as Hhas2.
  { rewrite Hfav. right. by left. }
  assert ("t7" ∉ memory.favorites_of "u1" repository1) as Hnot.
  { rewrite Hfav. intros [?|[?|?%elem_of_nil]%elem_of_cons]%elem_of_cons;
      done. }
  destruct (RemoveFavorite_removes "u1" "t1" alice repository1
              repository1_tidy Hin) as [Hrem _].
  destruct (RemoveFavorite_removes "u1" "t7" alice repository1
              repository1_tidy Hin) as [_ Hmiss].
  destruct (Hrem Hhas) as (_ & Hmem & _).
  split_and!; [exact repository1_tidy|exact Hin|exact Hhas| | |exact Hnot|].
  - apply Hmem. split; [exact Hhas2|done].
  - intros Habs. apply Hmem in Habs as [_ Hne]. done.
  - exact (Hmiss Hnot).
Defined.

(** [alice] edits her biography and keeps her name and email. *)
Lemma Update_same_identity_witness :
  map_to_list (memory.users repository1)
    ≡ₚ map_to_list (memory.users repository1) ∧
  memory.unique repository1 ∧
  memory.users repository1 !! memory.ID alice_edited = Some alice ∧
  memory.Update alice_edited repository1 =
    (None,
     {| memory.users := <["u1" := alice_edited]> (memory.users repository1);
        memory.favorites := memory.favorites repository1 |}).
Proof.
  assert (map_to_list (memory.users repository1)
            ≡ₚ map_to_list (memory.users repository1)) as Hperm
    by reflexivity.
  assert (memory.users repository1 !! memory.ID alice_edited = Some alice)
    as Hin by (vm_compute; reflexivity).
  destruct (Update_same_identity _ alice_edited repository1 Hperm
              repository1_unique) as [Hsame _].
  split_and!; [exact Hperm|exact repository1_unique|exact Hin|].
  exact (Hsame alice Hin eq_refl eq_refl).
Defined.

End scenarios_repository.

(** ** The session handlers on concrete requests *)

Section scenarios_web.
Import scenario.

Lemma manager2_keys :
  ∀ id s, auth.sessions manager2 !! id = Some s → auth.ID s = id.
Proof.
  assert (map_Forall (λ id s, auth.ID s = id) (auth.sessions manager2))
    as Hkeys by (refine (bool_decide_unpack _ _); vm_compute; exact I).
  exact Hkeys.
Qed.

Lemma request_id1_cookie :
  http.Request_Cookie "session_id" (gin.Request context1) =
    Ok {| http.Name := "session_id"; http.Value := id1 |}.
Proof. vm_compute. reflexivity. Qed.

(** The logout of the first session at time 5 removes it, keeps the second
    session and clears the cookie with the secure flag set. *)
Lemma Logout_removes_session_witness :
  (∀ id s, auth.sessions manager2 !! id = Some s → auth.ID s = id) ∧
  http.Request_Cookie "session_id" (gin.Request context1) =
    Ok {| http.Name := "session_id"; http.Value := id1 |} ∧
  auth.sessions (sessionweb.Logout 5 6 (manager2, context1)).1 !! id1 =
    None ∧
  auth.sessions (sessionweb.Logout 5 6 (manager2, context1)).1 !! id2 =
    Some session2 ∧
  gin.CookiesSet (sessionweb.Logout 5 6 (manager2, context1)).2 =
    [ {| gin.name := "session_id"; gin.value := ""; gin.maxAge := -1;
         gin.path := "/"; gin.domain := ""; gin.secure := true;
         gin.httpOnly := true |} ].
Proof.
  destruct (Logout_removes_session 5 6 manager2 context1 manager2_keys)
    as (Hcookie & _ & Hset & _).
  destruct (Hcookie _ request_id1_cookie) as (Hgone & Hother & _).
  split_and!; [exact manager2_keys|exact request_id1_cookie|exact Hgone| |].
  - rewrite Hother; [vm_compute; reflexivity|vm_compute; discriminate].
  - rewrite Hset. vm_compute. reflexivity.
Defined.

(** The request with the first session's cookie, at time 5, passes
    [RequireAuth] as [u1]. *)
Lemma RequireAuth_after_CreateSession_witness :
  auth.CreateSession (Ok entropy1) 0 0 "u1" "alice" "alice@example.com"
    manager0 = (Ok session1, manager1) ∧
  http.Request_Cookie "session_id" (gin.Request context1) =
    Ok {| http.Name := "session_id"; http.Value := id1 |} ∧
  5 ≤ 0 + auth.timeout manager0 ∧
  ∃ (sm2 : auth.SessionManager string) (c2 : gin.Context string),
    sessionweb.RequireAuth (λ st, st) 5 6 (manager1, context1) = (sm2, c2) ∧
    gin.Keys c2 !! "user_id" = Some (gin.AString "u1") ∧
    gin.Aborted c2 = false.
Proof.
  assert (auth.CreateSession (Ok entropy1) 0 0 "u1" "alice"
            "alice@example.com" manager0 = (Ok session1, manager1)) as Hnew
    by (vm_compute; reflexivity).
  assert (5 ≤ 0 + auth.timeout manager0) as Hlive by (cbn; lia).
  split_and!; [exact Hnew|exact request_id1_cookie|exact Hlive|].
  destruct (RequireAuth_after_CreateSession _ _ _ _ _ _ _ _ _ context1 _
              (λ st, st) 5 6 Hnew request_id1_cookie eq_refl Hlive)
    as (sm2 & c2 & Hpass & Huser & _ & _ & _ & Hab & _).
  exists sm2, c2. split_and!; [exact Hpass|exact Huser|exact Hab].
Defined.

(** After the logout and a sweep, the same cookie is refused at time 7. *)
Lemma RequireAuth_after_Logout_witness :
  (∀ id s, auth.sessions manager2 !! id = Some s → auth.ID s = id) ∧
  http.Request_Cookie "session_id" (gin.Request context1) =
    Ok {| http.Name := "session_id"; http.Value := id1 |} ∧
  Forall (λ call : auth.call string, ¬ auth.creates id1 call)
    [ auth.CallCleanupTick 6 ] ∧
  gin.Aborted
    (sessionweb.RequireAuth (λ st, st) 7 8
       (auth.run [ auth.CallCleanupTick 6 ]
          (sessionweb.Logout 5 6 (manager2, context1)).1, context1)).2 = true.
Proof.
  assert (Forall (λ call : auth.call string, ¬ auth.creates id1 call)
            [ auth.CallCleanupTick 6 ]) as Hcs.
  { repeat constructor. cbn. tauto. }
  split_and!; [exact manager2_keys|exact request_id1_cookie|exact Hcs|].
  rewrite (RequireAuth_after_Logout 5 6 7 8 manager2 context1 context1 _
             [ auth.CallCleanupTick 6 ] (λ st, st) manager2_keys
             request_id1_cookie eq_refl Hcs).
  reflexivity.
Defined.

(** The first session's request has no role key: the member check passes
    and records the organization, the role check refuses. *)
Lemma role_checks_after_RequireAuth_witness :
  sessionweb.GetSessionFromContext context1 5 6 manager1 =
    (Some (auth.set_ExpiresAt 26 session1), true,
     (auth.GetSession id1 5 6 manager1).2) ∧
  gin.Keys context1 !! "user_role" = None ∧
  gin.Keys
    (sessionweb.RequireAuth
       (λ st, (st.1, sessionweb.RequireOrganizationMember "acme"
                       (λ c, c) st.2))
       5 6 (manager1, context1)).2 !! "organization_id" =
    Some (gin.AString "acme") ∧
  gin.Aborted
    (sessionweb.RequireAuth
       (λ st, (st.1, sessionweb.RequireRole "admin" (λ c, c) st.2))
       5 6 (manager1, context1)).2 = true.
Proof.
  assert (sessionweb.GetSessionFromContext context1 5 6 manager1 =
            (Some (auth.set_ExpiresAt 26 session1), true,
             (auth.GetSession id1 5 6 manager1).2)) as Hget
    by (vm_compute; reflexivity).
  assert (gin.Keys context1 !! "user_role" = None) as Hrole
    by (vm_compute; reflexivity).
  destruct (role_checks_after_RequireAuth 5 6 manager1 _ context1 _
              "admin" "acme" (λ c, c) Hget Hrole) as (Hmember & Hroleq & _).
  split_and!; [exact Hget|exact Hrole| |].
  - rewrite Hmember. vm_compute. reflexivity.
  - rewrite Hroleq. reflexivity.
Defined.

(** A context whose role is [owner] passes the owner and the admin
    check. *)
Lemma role_checks_hierarchy_witness :
  gin.Keys context_owner !! "user_role" = Some (gin.AString "owner") ∧
  sessionweb.RequireOrganizationOwner (λ c, c) context_owner =
    context_owner ∧
  sessionweb.RequireOrganizationAdmin (λ c, c) context_owner =
    context_owner.
Proof.
  assert (gin.Keys context_owner !! "user_role" =
            Some (gin.AString "owner")) as Hrole
    by (vm_compute; reflexivity).
  destruct (role_checks_hierarchy (λ c, c) context_owner _ Hrole)
    as (Howner & _).
  destruct (Howner eq_refl) as (Ho & Ha & _).
  split_and!; [exact Hrole|exact Ho|exact Ha].
Defined.

(** The header [Bearer abc123] gives the token [abc123], and a token that
    was extracted determines its header. *)
Lemma extractBearerToken_spec_witness :
  strings.ContainsByte "Bearer" " " = false ∧
  strings.ContainsByte "abc123" " " = false ∧
  ToLower "Bearer" = "bearer" ∧
  bearer.extractBearerToken ToLower "Bearer abc123" = "abc123" ∧
  ∃ scheme, "bEARER xyz" =
              scheme +:+ " " +:+
              bearer.extractBearerToken ToLower "bEARER xyz".
Proof.
  destruct (extractBearerToken_spec ToLower) as [Hsound Hcomplete].
  split_and!; [reflexivity..| |].
  - exact (Hcomplete "Bearer" "abc123" eq_refl eq_refl eq_refl).
  - destruct (Hsound "bEARER xyz") as (scheme & Hheader & _).
    + vm_compute. discriminate.
    + by exists scheme.
Defined.

End scenarios_web.
